(** * Audio recording server: a shallow embedding of [server_code/server.py]

    The Flask handlers [receive_audio] and [list_recordings] are embedded as
    total functions over an explicit request, an explicit recordings
    directory and an explicit log.  The Python primitives the handlers rely
    on ([int], [str.lower], [in], true division, [round], [sorted],
    [Path.glob]) are modelled first.  [health_check], which answers a
    constant, is left out. *)

From Stdlib Require Import List ZArith QArith Qround Qabs Qreduction Qpower Bool Lia Lqa.
From Stdlib Require Import Ascii String DecimalString.
From Stdlib.Strings Require Import Byte.
From Stdlib Require Import Sorted Permutation.
Import ListNotations.

Local Open Scope Z_scope.

(* ===================================================================== *)
(** ** Python strings (header values are Latin-1 text) *)
(* ===================================================================== *)

Module PyStr.

Definition code (c : ascii) : Z := Z.of_nat (nat_of_ascii c).

(** [str.lower] on one Latin-1 character: A-Z and the accented capitals
    U+00C0..U+00DE (except the multiplication sign U+00D7) move up by 32. *)
Definition lower_char (c : ascii) : ascii :=
  let n := code c in
  if ((65 <=? n) && (n <=? 90)) || ((192 <=? n) && (n <=? 222) && negb (n =? 215))
  then ascii_of_nat (Z.to_nat (n + 32))
  else c.

Fixpoint lower (s : string) : string :=
  match s with
  | EmptyString => EmptyString
  | String c t => String (lower_char c) (lower t)
  end.

(** [needle in hay] for strings. *)
Fixpoint contains (needle hay : string) : bool :=
  if String.prefix needle hay then true
  else match hay with
       | EmptyString => false
       | String _ t => contains needle t
       end.

(** [hay.endswith(suffix)]: some tail of [hay] is [suffix]. *)
Fixpoint endswith (suffix hay : string) : bool :=
  String.eqb hay suffix
  || match hay with
     | EmptyString => false
     | String _ t => endswith suffix t
     end.

(** The characters [str.strip] and [int] treat as white space. *)
Definition is_space (c : ascii) : bool :=
  let n := code c in
  ((9 <=? n) && (n <=? 13)) || ((28 <=? n) && (n <=? 32))
  || (n =? 133) || (n =? 160).

Definition is_digit (c : ascii) : bool :=
  let n := code c in (48 <=? n) && (n <=? 57).

Definition digit_val (c : ascii) : Z := code c - 48.

Fixpoint lstrip (l : list ascii) : list ascii :=
  match l with
  | c :: t => if is_space c then lstrip t else l
  | [] => []
  end.

Definition strip (l : list ascii) : list ascii :=
  rev (lstrip (rev (lstrip l))).

(** Digits of an integer literal, read after a first digit has been seen:
    a single underscore may separate two digits. *)
Fixpoint int_digits (acc : Z) (l : list ascii) : option Z :=
  match l with
  | [] => Some acc
  | c :: t =>
      if is_digit c then int_digits (10 * acc + digit_val c) t
      else if Ascii.eqb c "_"%char then
        match t with
        | d :: t' =>
            if is_digit d then int_digits (10 * acc + digit_val d) t'
            else None
        | [] => None
        end
      else None
  end.

Definition int_unsigned (l : list ascii) : option Z :=
  match l with
  | c :: t => if is_digit c then int_digits (digit_val c) t else None
  | [] => None
  end.

(** The integer a literal denotes, whatever its length: white space around
    the literal is dropped, one sign is allowed. *)
Definition int_literal (s : string) : option Z :=
  match strip (list_ascii_of_string s) with
  | c :: t =>
      if Ascii.eqb c "-"%char then option_map Z.opp (int_unsigned t)
      else if Ascii.eqb c "+"%char then int_unsigned t
      else int_unsigned (c :: t)
  | [] => None
  end.

(** The digits of a literal, as [int] counts them against its limit: the
    underscores, the sign and the white space do not count. *)
Definition digit_count (s : string) : Z :=
  Z.of_nat (List.length (filter is_digit (list_ascii_of_string s))).

(** [sys.get_int_max_str_digits()], which the server leaves at its default. *)
Definition max_str_digits : Z := 4300.

(** [int(s)] in base 10: [None] stands for the [ValueError] it raises, for a
    string that is no literal and for a literal of more than
    [max_str_digits] digits. *)
Definition int (s : string) : option Z :=
  match int_literal s with
  | Some z => if max_str_digits <? digit_count s then None else Some z
  | None => None
  end.

(** [repr(s)] for a Latin-1 string.  Double quotes are used when the string
    has a single quote and no double quote; the quote in use and the
    backslash are escaped, and what is not printable is written [\t], [\n],
    [\r] or [\xhh]. *)
Definition backslash : ascii := "092"%char.
Definition double_quote : ascii := "034"%char.
Definition single_quote : ascii := "039"%char.

Definition hex_char (n : Z) : ascii :=
  if n <? 10 then ascii_of_nat (Z.to_nat (48 + n))
  else ascii_of_nat (Z.to_nat (87 + n)).

Definition is_printable (c : ascii) : bool :=
  let n := code c in
  ((32 <=? n) && (n <? 127)) || ((161 <=? n) && negb (n =? 173)).

Definition repr_char (quote c : ascii) : string :=
  let n := code c in
  if Ascii.eqb c quote || Ascii.eqb c backslash
  then String backslash (String c EmptyString)
  else if n =? 9 then String backslash "t"
  else if n =? 10 then String backslash "n"
  else if n =? 13 then String backslash "r"
  else if is_printable c then String c EmptyString
  else String backslash
         (String "x"
            (String (hex_char (n / 16))
               (String (hex_char (n mod 16)) EmptyString))).

Fixpoint has_char (c : ascii) (s : string) : bool :=
  match s with
  | EmptyString => false
  | String x t => Ascii.eqb x c || has_char c t
  end.

Fixpoint repr_chars (quote : ascii) (s : string) : string :=
  match s with
  | EmptyString => String quote EmptyString
  | String c t => (repr_char quote c ++ repr_chars quote t)%string
  end.

Definition repr (s : string) : string :=
  let quote :=
    if has_char single_quote s && negb (has_char double_quote s)
    then double_quote else single_quote in
  String quote (repr_chars quote s).

(** A number in decimal, as [%d] prints it. *)
Definition decimal (n : Z) : string :=
  NilZero.string_of_uint (N.to_uint (Z.to_N n)).

(** Decimal digit as a character, and zero-padded fields for [strftime]. *)
Definition digit_char (n : Z) : ascii := ascii_of_nat (Z.to_nat (48 + n mod 10)).

Definition pad2 (n : Z) : string :=
  String (digit_char (n / 10)) (String (digit_char n) EmptyString).

Definition pad4 (n : Z) : string :=
  String (digit_char (n / 1000)) (String (digit_char (n / 100)) (pad2 n)).

End PyStr.

(* ===================================================================== *)
(** ** Python floats: binary64 values as the rationals they denote *)
(* ===================================================================== *)

Module PyFloat.

Local Open Scope Q_scope.

(** A finite double is represented by its exact value, in lowest terms,
    so that equal doubles are equal terms.  The sign of zero is not kept. *)
Definition float := Q.

Definition pow2 (e : Z) : Q := Qpower (2 # 1) e.

(** Round to the nearest integer, ties to even. *)
Definition rne (q : Q) : Z :=
  let f := Qfloor q in
  match Qcompare (q - inject_Z f) (1 # 2) with
  | Lt => f
  | Gt => (f + 1)%Z
  | Eq => if Z.even f then f else (f + 1)%Z
  end.

(** floor (log2 q) for q > 0. *)
Definition ilog2 (q : Q) : Z :=
  let e0 := (Z.log2 (Qnum q) - Z.log2 (Zpos (Qden q)))%Z in
  if Qle_bool (pow2 e0) q then e0 else (e0 - 1)%Z.

(** The double nearest to the rational [q] (round-half-even, 53-bit
    significand, gradual underflow); [None] when the result would not be
    finite, where Python raises [OverflowError].  The argument is first
    put in lowest terms: the result depends on its value only. *)
Definition of_Q (q : Q) : option float :=
  let q := Qred q in
  if Qeq_bool q 0 then Some 0
  else
    let a := Qabs q in
    let ex := Z.max (ilog2 a - 52) (-1074) in
    let v := inject_Z (rne (a / pow2 ex)) * pow2 ex in
    if Qle_bool (pow2 1024) v then None
    else Some (Qred (if Qle_bool 0 q then v else - v)).

(** [a / b] on Python integers with [b <> 0]: the correctly rounded
    quotient. *)
Definition true_div (a b : Z) : option float :=
  of_Q (inject_Z a / inject_Z b).

(** [round(x, 2)]: the exact value of [x] is rounded half-even to two
    decimals, and the decimal is converted back to the nearest double. *)
Definition round2 (x : float) : option float :=
  of_Q (inject_Z (rne (x * 100)) / 100).

End PyFloat.

(* ===================================================================== *)
(** ** Bounded iteration for [while] loops *)
(* ===================================================================== *)

Module Loop.

Section Iterate.
Context {S R : Type}.

(** One pass through a loop body: a new state, or the loop's exit. *)
Variable body : S -> S + R.

(** At most [p] passes, stopping at the first exit.  The cost follows the
    passes really made, so a large bound is harmless. *)
Fixpoint iterate (p : positive) (s : S) : S + R :=
  match p with
  | xH => body s
  | xO p' =>
      match iterate p' s with
      | inl s' => iterate p' s'
      | inr r => inr r
      end
  | xI p' =>
      match body s with
      | inl s0 =>
          match iterate p' s0 with
          | inl s' => iterate p' s'
          | inr r => inr r
          end
      | inr r => inr r
      end
  end.

(** The same loop counted in unary, for induction. *)
Fixpoint iterate_nat (n : nat) (s : S) : S + R :=
  match n with
  | O => inl s
  | Datatypes.S n' =>
      match body s with
      | inl s' => iterate_nat n' s'
      | inr r => inr r
      end
  end.
End Iterate.

End Loop.

(* ===================================================================== *)
(** ** The request, the byte streams and the recordings directory *)
(* ===================================================================== *)

Definition bytes := list byte.

(** [len(b)] *)
Definition len (b : bytes) : Z := Z.of_nat (List.length b).

(** What one [read] call on a stream does: it hands over the bytes the
    transport has ready, or raises. *)
Inductive read_event :=
| Bytes (b : bytes)
| Raise (reason : string).

(** A byte stream ([request.stream], [wsgi.input]) is given by the outcome of
    its successive [read] calls; a stream may go on for ever. *)
Definition stream := nat -> read_event.

(** [s.read(n)] as the [k]-th call: at most [n] bytes are returned. *)
Definition read (s : stream) (k : nat) (n : Z) : read_event :=
  match s k with
  | Bytes b => Bytes (firstn (Z.to_nat n) b)
  | Raise m => Raise m
  end.

(** A finite stream: the listed reads, then end of file for ever. *)
Definition stream_of (l : list read_event) : stream :=
  fun k => nth k l (Bytes []).

Record request := {
  x_audio_sample_rates : option string;
  x_audio_bits : option string;
  x_audio_channel : option string;
  content_type_header : option string;
  content_length : option Z;
  req_stream : stream;                  (* request.stream *)
  wsgi_input : option stream            (* request.environ.get('wsgi.input') *)
}.

(** [headers.get(name, default)] *)
Definition get (h : option string) (default : string) : string :=
  match h with Some v => v | None => default end.

(** [datetime.datetime.now()] *)
Record datetime := {
  year : Z; month : Z; day : Z; hour : Z; minute : Z; second : Z
}.

(** [strftime("%Y%m%d_%H%M%S")] *)
Definition strftime (t : datetime) : string :=
  (PyStr.pad4 (year t) ++ PyStr.pad2 (month t) ++ PyStr.pad2 (day t) ++ "_"
   ++ PyStr.pad2 (hour t) ++ PyStr.pad2 (minute t) ++ PyStr.pad2 (second t))%string.

(** The wall clock seen by one request: the local date and time used for the
    file name, and the time stamp the filesystem gives to a file written
    now. *)
Record clock := { now : datetime; now_mtime : Z }.

(** A file of the recordings directory. *)
Record file := { name : string; data : bytes; st_mtime : Z }.

(** The directory [RECORDINGS_DIR], in the order the system lists it. *)
Definition directory := list file.

Definition exists_file (n : string) (d : directory) : bool :=
  existsb (fun f => String.eqb (name f) n) d.

(** [open(path, 'wb')] followed by [write], on a directory that can be
    written to: an existing file of that name is replaced, otherwise a file
    is added. *)
Fixpoint write_file (n : string) (b : bytes) (mtime : Z) (d : directory) : directory :=
  match d with
  | [] => [ {| name := n; data := b; st_mtime := mtime |} ]
  | f :: d' =>
      if String.eqb (name f) n
      then {| name := n; data := b; st_mtime := mtime |} :: d'
      else f :: write_file n b mtime d'
  end.

(* ===================================================================== *)
(** ** Log records and responses *)
(* ===================================================================== *)

Inductive log_record :=
| Warning_unexpected_content_type (ct : string)
| Info_received (sample_rate bits channels ct : string) (cl : option Z)
| Warning_exceeds_limit
| Error_reading_stream (reason : string)
| Info_trying_fallback
| Error_fallback_failed (reason : string)
| Warning_no_audio_data
| Info_saved (filename : string) (size : Z)
| Info_response (filename : string) (size : Z)
| Error_processing (reason : string).

Record success_body := {
  message : string;
  filename : string;
  size_bytes : Z;
  duration_seconds : PyFloat.float;
  sample_rate : string;
  bits_per_sample : string;
  channels : string
}.

(** The JSON object of a reply to [POST /api/audio]: its [status] field is
    ["success"] or ["error"]. *)
Inductive body :=
| Success (b : success_body)
| Error (message : string).

Definition status (b : body) : string :=
  match b with
  | Success _ => "success"
  | Error _ => "error"
  end.

Record response := { json : body; http_code : Z }.

(** The exceptions the handler can meet after the body has been read. *)
Inductive exn :=
| ValueError_int (literal : string)
| ValueError_digits (literal : string)
| ZeroDivisionError
| OverflowError_division
| OverflowError_round.

(** [str(e)].  The text of an invalid literal holds [repr] of the string,
    cut at 200 characters; the text of the digit limit holds the limit and
    the number of digits. *)
Definition str_exn (e : exn) : string :=
  match e with
  | ValueError_int s =>
      "invalid literal for int() with base 10: "
      ++ String.substring 0 200 (PyStr.repr s)
  | ValueError_digits s =>
      "Exceeds the limit (" ++ PyStr.decimal PyStr.max_str_digits
      ++ " digits) for integer string conversion: value has "
      ++ PyStr.decimal (PyStr.digit_count s)
      ++ " digits; use sys.set_int_max_str_digits() to increase the limit"
  | ZeroDivisionError => "division by zero"
  | OverflowError_division => "integer division result too large for a float"
  | OverflowError_round => "rounded value too large to represent"
  end.

(** The [ValueError] that [int(s)] raises when [PyStr.int s] is [None]. *)
Definition int_exn (s : string) : exn :=
  match PyStr.int_literal s with
  | Some _ => ValueError_digits s
  | None => ValueError_int s
  end.

(* ===================================================================== *)
(** ** [receive_audio]: POST /api/audio *)
(* ===================================================================== *)

Definition chunk_size : Z := 16384.
Definition max_size : Z := 10 * 1024 * 1024.

(** How a read of the body ends: with the bytes collected, or with an
    exception, [audio_data] holding what had been collected before it. *)
Inductive read_exit :=
| Finished (audio_data : bytes)
| Raised (reason : string) (audio_data : bytes).

(** One pass of [while len(audio_data) < max_size]; the state is the number
    of reads made so far and [audio_data]. *)
Definition chunk_step (s : stream) (st : nat * bytes) : (nat * bytes) + read_exit :=
  let '(k, audio_data) := st in
  if len audio_data <? max_size then
    match read s k chunk_size with
    | Raise m => inr (Raised m audio_data)
    | Bytes [] => inr (Finished audio_data)
    | Bytes chunk => inl (S k, audio_data ++ chunk)
    end
  else inr (Finished audio_data).

(** The loop makes at most [max_size + 1] passes (see [read_chunks_fuel]). *)
Definition loop_bound : positive := Z.to_pos (max_size + 1).

Definition read_chunks (s : stream) (audio_data : bytes) : read_exit :=
  match Loop.iterate (chunk_step s) loop_bound (O, audio_data) with
  | inr e => e
  | inl (_, a) => Finished a
  end.

(** [request.content_length and request.content_length > 0] *)
Definition length_declared (cl : option Z) : option Z :=
  match cl with
  | Some n => if (negb (n =? 0)) && (0 <? n) then Some n else None
  | None => None
  end.

(** The body of either [try]: one read of the declared length, or the chunk
    loop continuing from [audio_data]. *)
Definition read_body_from (s : stream) (cl : option Z) (audio_data : bytes) : read_exit :=
  match length_declared cl with
  | Some n =>
      match read s O n with
      | Bytes b => Finished b
      | Raise m => Raised m audio_data
      end
  | None => read_chunks s audio_data
  end.

(** Lines 74-114: the primary read, and the fallback once it has raised.
    The result is [audio_data], or the reply sent when the fallback raises
    too, with the records logged on the way. *)
Definition read_body (r : request) : (bytes + response) * list log_record :=
  match read_body_from (req_stream r) (content_length r) [] with
  | Finished audio_data =>
      (inl audio_data,
       match length_declared (content_length r) with
       | Some _ => []
       | None => if max_size <=? len audio_data then [Warning_exceeds_limit] else []
       end)
  | Raised stream_error audio_data =>
      let log := [Error_reading_stream stream_error; Info_trying_fallback] in
      match wsgi_input r with
      | None => (inl audio_data, log)
      | Some w =>
          match read_body_from w (content_length r) audio_data with
          | Finished audio_data' => (inl audio_data', log)
          | Raised fallback_error _ =>
              (inr {| json := Error ("Failed to read audio stream: " ++ stream_error);
                      http_code := 400 |},
               log ++ [Error_fallback_failed fallback_error])
          end
      end
  end.

(** Lines 135-147: the duration, or the exception raised on the way. *)
Definition duration (sample_rate bits_per_sample channels : string) (n : Z)
  : exn + PyFloat.float :=
  match PyStr.int sample_rate with
  | None => inl (int_exn sample_rate)
  | Some sample_rate_int =>
  match PyStr.int bits_per_sample with
  | None => inl (int_exn bits_per_sample)
  | Some bits_per_sample_int =>
  match PyStr.int channels with
  | None => inl (int_exn channels)
  | Some channels_int =>
      let bytes_per_sample := (bits_per_sample_int / 8) * channels_int in
      let d := sample_rate_int * bytes_per_sample in
      if d =? 0 then inl ZeroDivisionError
      else
        match PyFloat.true_div n d with
        | None => inl OverflowError_division
        | Some duration_seconds =>
            match PyFloat.round2 duration_seconds with
            | None => inl OverflowError_round
            | Some rounded => inr rounded
            end
        end
  end end end.

(** The handler: the reply, the recordings directory afterwards, and the
    log. *)
Definition receive_audio (r : request) (c : clock) (d : directory)
  : response * directory * list log_record :=
  let sample_rate := get (x_audio_sample_rates r) "16000" in
  let bits_per_sample := get (x_audio_bits r) "16" in
  let channels := get (x_audio_channel r) "1" in
  let content_type := get (content_type_header r) "" in
  let log0 :=
    (if PyStr.contains "audio/pcm" (PyStr.lower content_type) then []
     else [Warning_unexpected_content_type content_type])
    ++ [Info_received sample_rate bits_per_sample channels content_type
          (content_length r)] in
  match read_body r with
  | (inr reply, log1) => (reply, d, log0 ++ log1)
  | (inl audio_data, log1) =>
      match audio_data with
      | [] =>
          ({| json := Error "No audio data received"; http_code := 400 |},
           d, log0 ++ log1 ++ [Warning_no_audio_data])
      | _ :: _ =>
          let filename := ("recording_" ++ strftime (now c) ++ ".pcm")%string in
          let d' := write_file filename audio_data (now_mtime c) d in
          let log2 := log0 ++ log1 ++ [Info_saved filename (len audio_data)] in
          match duration sample_rate bits_per_sample channels (len audio_data) with
          | inr rounded =>
              ({| json := Success
                    {| message := "Audio received and saved";
                       filename := filename;
                       size_bytes := len audio_data;
                       duration_seconds := rounded;
                       sample_rate := sample_rate;
                       bits_per_sample := bits_per_sample;
                       channels := channels |};
                  http_code := 200 |},
               d', log2 ++ [Info_response filename (len audio_data)])
          | inl e =>
              ({| json := Error ("Server error: " ++ str_exn e); http_code := 500 |},
               d', log2 ++ [Error_processing (str_exn e)])
          end
      end
  end.

(* ===================================================================== *)
(** ** [list_recordings]: GET /api/recordings *)
(* ===================================================================== *)

(** [sorted(l, key=key, reverse=True)]: a stable sort into descending keys;
    entries of equal key keep the order they came in. *)
Section SortedReverse.
Context {A : Type}.
Variable key : A -> Z.

Fixpoint insert_desc (x : A) (l : list A) : list A :=
  match l with
  | [] => [x]
  | y :: t => if key x <? key y then y :: insert_desc x t else x :: l
  end.

Definition sorted_reverse (l : list A) : list A :=
  fold_right insert_desc [] l.

(** The order of the result. *)
Definition descending (x y : A) : Prop := key y <= key x.
End SortedReverse.

(** [RECORDINGS_DIR.glob("*.pcm")] *)
Definition glob_pcm (d : directory) : directory :=
  filter (fun f => PyStr.endswith ".pcm" (name f)) d.

Record recording := {
  rec_filename : string;
  rec_size_bytes : Z;
  rec_created : Z            (* the modification time, rendered by isoformat *)
}.

Record listing := {
  list_status : string;
  count : Z;
  recordings : list recording
}.

(** The handler on a directory of files, each of which can be stat'ed;
    [list_recordings_in] below is the handler on any directory. *)
Definition list_recordings (d : directory) : listing * Z :=
  let recordings :=
    map (fun f => {| rec_filename := name f;
                     rec_size_bytes := len (data f);
                     rec_created := st_mtime f |})
        (sorted_reverse st_mtime (glob_pcm d)) in
  ({| list_status := "success";
      count := Z.of_nat (List.length recordings);
      recordings := recordings |}, 200).

(** The directory as a request may find it also holds names that [stat]
    cannot follow (a dangling link, a file removed meanwhile); the handler
    has no [try], so the exception of [os.path.getmtime] or [file.stat()] on
    such a name leaves the request to Flask, which answers 500. *)
Inductive dir_entry :=
| Readable (f : file)
| Unreadable (n : string).

Definition entry_name (e : dir_entry) : string :=
  match e with
  | Readable f => name f
  | Unreadable n => n
  end.

(** [RECORDINGS_DIR.glob("*.pcm")]: the names are matched, nothing is
    stat'ed yet. *)
Definition glob_pcm_entries (s : list dir_entry) : list dir_entry :=
  filter (fun e => PyStr.endswith ".pcm" (entry_name e)) s.

(** [stat] on each entry in turn; [None] when one raises [OSError]. *)
Fixpoint stat_all (l : list dir_entry) : option (list file) :=
  match l with
  | [] => Some []
  | Readable f :: t => option_map (cons f) (stat_all t)
  | Unreadable _ :: _ => None
  end.

(** The reply to GET /api/recordings: the listing and 200, or 500 without a
    listing when an exception escapes the handler. *)
Definition list_recordings_in (s : list dir_entry) : option listing * Z :=
  match stat_all (glob_pcm_entries s) with
  | Some files =>
      let recordings :=
        map (fun f => {| rec_filename := name f;
                         rec_size_bytes := len (data f);
                         rec_created := st_mtime f |})
            (sorted_reverse st_mtime files) in
      (Some {| list_status := "success";
               count := Z.of_nat (List.length recordings);
               recordings := recordings |}, 200)
  | None => (None, 500)
  end.


(* ===================================================================== *)
(** ** Notions used to state the properties *)
(* ===================================================================== *)

Definition exit_data (e : read_exit) : bytes :=
  match e with
  | Finished a => a
  | Raised _ a => a
  end.

(** The chunk loop as a relation: [loop_run s k a e] when the loop, entered
    with [k] reads made and [a] accumulated, leaves with [e]. *)
Inductive loop_run (s : stream) : nat -> bytes -> read_exit -> Prop :=
| run_ceiling k a :
    max_size <= len a -> loop_run s k a (Finished a)
| run_eof k a :
    len a < max_size -> read s k chunk_size = Bytes [] ->
    loop_run s k a (Finished a)
| run_raise k a m :
    len a < max_size -> read s k chunk_size = Raise m ->
    loop_run s k a (Raised m a)
| run_chunk k a c e :
    len a < max_size -> read s k chunk_size = Bytes c -> c <> [] ->
    loop_run s (S k) (a ++ c) e -> loop_run s k a e.

(** The bytes of the [k]-th chunk read, [n] chunks from the [k]-th on, and
    the first [n] chunks together. *)
Definition chunk (s : stream) (k : nat) : bytes :=
  match read s k chunk_size with
  | Bytes b => b
  | Raise _ => []
  end.

Definition chunks_from (s : stream) (k n : nat) : bytes :=
  List.concat (map (chunk s) (seq k n)).


(** How many times the handler entered its fallback. *)
Definition is_trying_fallback (l : log_record) : bool :=
  match l with
  | Info_trying_fallback => true
  | _ => false
  end.

Definition fallback_attempts (log : list log_record) : nat :=
  List.length (filter is_trying_fallback log).

(** The same request under another declared content type. *)
Definition with_content_type (r : request) (ct : option string) : request :=
  {| x_audio_sample_rates := x_audio_sample_rates r;
     x_audio_bits := x_audio_bits r;
     x_audio_channel := x_audio_channel r;
     content_type_header := ct;
     content_length := content_length r;
     req_stream := req_stream r;
     wsgi_input := wsgi_input r |}.

Definition content_type_warning (ct : option string) : list log_record :=
  if PyStr.contains "audio/pcm" (PyStr.lower (get ct "")) then []
  else [Warning_unexpected_content_type (get ct "")].

(** The three audio parameters as the handler reads them. *)
Definition sample_rate_of (r : request) : string := get (x_audio_sample_rates r) "16000".
Definition bits_of (r : request) : string := get (x_audio_bits r) "16".
Definition channels_of (r : request) : string := get (x_audio_channel r) "1".


(** The name given to a recording written at [c]. *)
Definition recording_name (c : clock) : string :=
  ("recording_" ++ strftime (now c) ++ ".pcm")%string.

Definition reply (x : response * directory * list log_record) : response := fst (fst x).
Definition stored (x : response * directory * list log_record) : directory := snd (fst x).
Definition logged (x : response * directory * list log_record) : list log_record := snd x.

(** The duration in the words of the specification: the byte length divided
    by [sample_rate * channels * (bits / 8)], the division of [bits] by 8
    being exact, then rounded to two decimals. *)
Definition duration_exact (byte_length sr bits ch : Z) : option PyFloat.float :=
  match PyFloat.of_Q
          (inject_Z byte_length / (inject_Z sr * inject_Z ch * (inject_Z bits / 8)))%Q with
  | Some x => PyFloat.round2 x
  | None => None
  end.

(** The same with the whole number of bytes per sample, [floor (bits / 8)]. *)
Definition duration_floor (byte_length sr bits ch : Z) : option PyFloat.float :=
  match PyFloat.of_Q
          (inject_Z byte_length / inject_Z (sr * ch * (bits / 8)))%Q with
  | Some x => PyFloat.round2 x
  | None => None
  end.

(** The entry [list_recordings] makes for a file. *)
Definition entry (f : file) : recording :=
  {| rec_filename := name f;
     rec_size_bytes := len (data f);
     rec_created := st_mtime f |}.


(** *** Statements that are checked against the handler *)


(** A request that is not answered with success leaves no new file. *)
Definition failed_request_creates_no_file : Prop :=
  forall (r : request) (c : clock) (d : directory),
    status (json (reply (receive_audio r c d))) <> "success"%string ->
    forall f, In f (stored (receive_audio r c d)) -> exists_file (name f) d = true.

(** The duration reported follows the exact formula. *)
Definition duration_is_exact : Prop :=
  forall (r : request) (c : clock) (d : directory) (b : success_body) (sr bits ch : Z),
    json (reply (receive_audio r c d)) = Success b ->
    PyStr.int (sample_rate_of r) = Some sr -> 0 < sr ->
    PyStr.int (bits_of r) = Some bits -> 0 < bits ->
    PyStr.int (channels_of r) = Some ch -> 0 < ch ->
    0 < size_bytes b ->
    duration_exact (size_bytes b) sr bits ch = Some (duration_seconds b).



(** *** Sample requests *)

Definition sample_clock : clock :=
  {| now := {| year := 2024; month := 3; day := 7;
               hour := 9; minute := 5; second := 1 |};
     now_mtime := 1709802301 |}.

Definition sample_request (rate bits : option string) (cl : option Z)
           (s : stream) (w : option stream) : request :=
  {| x_audio_sample_rates := rate;
     x_audio_bits := bits;
     x_audio_channel := None;
     content_type_header := Some "audio/pcm"%string;
     content_length := cl;
     req_stream := s;
     wsgi_input := w |}.

Definition three_bytes : bytes := [x01; x02; x03].

(** Two bytes posted with [x-audio-sample-rates: abc]. *)
Definition request_bad_rate : request :=
  sample_request (Some "abc"%string) None (Some 2) (stream_of [Bytes [x01; x02]]) None.

(** Three bytes posted as 12-bit samples at 1 Hz. *)
Definition request_12_bits : request :=
  sample_request (Some "1"%string) (Some "12"%string) (Some 3) (stream_of [Bytes three_bytes]) None.

(** Four bytes posted as 16-bit samples at 2 Hz. *)
Definition request_16_bits : request :=
  sample_request (Some "2"%string) None (Some 4)
    (stream_of [Bytes [x01; x02; x03; x04]]) None.

(** The success reply to [request_12_bits] and to [request_16_bits]. *)
Definition success_of (rate bits : string) (size : Z) (seconds : PyFloat.float)
  : success_body :=
  {| message := "Audio received and saved";
     filename := recording_name sample_clock;
     size_bytes := size;
     duration_seconds := seconds;
     sample_rate := rate;
     bits_per_sample := bits;
     channels := "1" |}.

(** Nothing posted. *)
Definition request_empty : request :=
  sample_request None None None (stream_of []) None.

(** Seven bytes streamed without a length, in chunks of 3 + 3 + 1. *)
Definition request_streamed : request :=
  sample_request None None None
    (stream_of [Bytes three_bytes; Bytes three_bytes; Bytes [x07]]) None.

(** Both the stream and the raw input raise. *)
Definition request_unreadable : request :=
  sample_request None None (Some 2) (stream_of [Raise "reset"])
    (Some (stream_of [Raise "closed"])).

(* ===================================================================== *)
(** ** [handle_raw_audio]: the hook run before each request *)
(* ===================================================================== *)

Section BeforeRequest.
(** The values of the WSGI environment are of no concern here. *)
Context {V : Type}.

(** [request.environ], a dictionary with string keys. *)
Definition environ := list (string * V).

(** [key in environ] and [environ.get(key)] *)
Definition environ_get (key : string) (e : environ) : option V :=
  option_map snd (find (fun kv => String.eqb (fst kv) key) e).

Definition environ_mem (key : string) (e : environ) : bool :=
  match environ_get key e with
  | Some _ => true
  | None => false
  end.

(** [del environ[key]] *)
Definition environ_del (key : string) (e : environ) : environ :=
  filter (fun kv => negb (String.eqb (fst kv) key)) e.

(** [request.headers] is a view of the environment: the header
    [transfer-encoding] is there exactly when the environment has the key
    [HTTP_TRANSFER_ENCODING]. *)
Definition header_mem_transfer_encoding (e : environ) : bool :=
  environ_mem "HTTP_TRANSFER_ENCODING" e.

(** What [request.headers.pop('transfer-encoding', None)] would do to the
    request; [None] stands for an exception. *)
Variable headers_pop : environ -> option environ.

(** The hook: the environment it leaves, or [None] if it raises. *)
Definition handle_raw_audio (endpoint : option string) (method : string)
           (e : environ) : option environ :=
  if match endpoint with
     | Some ep => String.eqb ep "receive_audio"
     | None => false
     end && String.eqb method "POST"
  then
    let e1 := if environ_mem "HTTP_TRANSFER_ENCODING" e
              then environ_del "HTTP_TRANSFER_ENCODING" e
              else e in
    if header_mem_transfer_encoding e1 then headers_pop e1 else Some e1
  else Some e.
End BeforeRequest.

(* ===================================================================== *)
(** ** Further notions used to state properties *)
(* ===================================================================== *)

(** The file of a given name, if the directory has one. *)
Definition find_file (n : string) (d : directory) : option file :=
  find (fun f => String.eqb (name f) n) d.

(** No two files of a directory share a name. *)
Definition unique_names (d : directory) : Prop := NoDup (map name d).

(** The recording written at [c] with the body [audio_data]. *)
Definition recording_file (c : clock) (audio_data : bytes) : file :=
  {| name := recording_name c; data := audio_data; st_mtime := now_mtime c |}.

(** The dates and times [datetime.now()] can return. *)
Definition valid_datetime (t : datetime) : Prop :=
  1 <= year t <= 9999 /\ 1 <= month t <= 12 /\ 1 <= day t <= 31
  /\ 0 <= hour t <= 23 /\ 0 <= minute t <= 59 /\ 0 <= second t <= 59.

(** The same request under another Content-Length. *)
Definition with_content_length (r : request) (cl : option Z) : request :=
  {| x_audio_sample_rates := x_audio_sample_rates r;
     x_audio_bits := x_audio_bits r;
     x_audio_channel := x_audio_channel r;
     content_type_header := content_type_header r;
     content_length := cl;
     req_stream := req_stream r;
     wsgi_input := wsgi_input r |}.

(** The entries of equal modification time, in the order of the list. *)
Definition created_at (t : Z) (l : list recording) : list recording :=
  filter (fun e => rec_created e =? t) l.

(** The same request with another raw input. *)
Definition with_wsgi_input (r : request) (w : option stream) : request :=
  {| x_audio_sample_rates := x_audio_sample_rates r;
     x_audio_bits := x_audio_bits r;
     x_audio_channel := x_audio_channel r;
     content_type_header := content_type_header r;
     content_length := content_length r;
     req_stream := req_stream r;
     wsgi_input := w |}.

(** *** More sample requests *)

(** A stream that gives one byte at every read, for ever. *)
Definition request_endless : request :=
  sample_request None None None (fun _ => Bytes [x00]) None.

(** Four bytes posted with [x-audio-sample-rates: -2]. *)
Definition request_negative_rate : request :=
  sample_request (Some "-2"%string) None (Some 4)
    (stream_of [Bytes [x01; x02; x03; x04]]) None.

(** The stream gives three bytes and then raises; the raw input has one
    byte more. *)
Definition request_interrupted : request :=
  sample_request None None None
    (stream_of [Bytes three_bytes; Raise "reset"])
    (Some (stream_of [Bytes [x09]])).



(** Later within the second of [sample_clock]. *)
Definition later_clock : clock :=
  {| now := now sample_clock; now_mtime := 1709802399 |}.

(* ===================================================================== *)
(** ** Facts about bounded iteration *)
(* ===================================================================== *)

Module LoopFacts.
Import Loop.

Section Facts.
Context {S R : Type}.
Variable body : S -> S + R.

Lemma iterate_nat_add (n m : nat) (s : S) :
  iterate_nat body (n + m) s =
  match iterate_nat body n s with
  | inl s' => iterate_nat body m s'
  | inr r => inr r
  end.
Proof.
  revert s; induction n as [|n IH]; intros s; simpl; [reflexivity|].
  destruct (body s) as [s'|r]; [apply IH | reflexivity].
Qed.

Lemma iterate_unary (p : positive) (s : S) :
  iterate body p s = iterate_nat body (Pos.to_nat p) s.
Proof.
  revert s; induction p as [p IH|p IH|]; intros s.
  - rewrite Pos2Nat.inj_xI.
    change (Datatypes.S (2 * Pos.to_nat p))
      with (1 + (Pos.to_nat p + (Pos.to_nat p + 0)))%nat.
    rewrite Nat.add_0_r, iterate_nat_add. simpl.
    destruct (body s) as [s0|r]; [|reflexivity].
    rewrite iterate_nat_add, <- IH.
    destruct (iterate body p s0) as [s'|r]; [apply IH | reflexivity].
  - rewrite Pos2Nat.inj_xO.
    change (2 * Pos.to_nat p)%nat with (Pos.to_nat p + (Pos.to_nat p + 0))%nat.
    rewrite Nat.add_0_r, iterate_nat_add, <- IH. simpl.
    destruct (iterate body p s) as [s'|r]; [apply IH | reflexivity].
  - simpl. destruct (body s); reflexivity.
Qed.

(** Once the loop has left, more passes change nothing. *)
Lemma iterate_nat_exit_mono (n m : nat) (s : S) (r : R) :
  (n <= m)%nat -> iterate_nat body n s = inr r -> iterate_nat body m s = inr r.
Proof.
  intros Hle H. replace m with (n + (m - n))%nat by lia.
  rewrite iterate_nat_add, H. reflexivity.
Qed.
End Facts.

End LoopFacts.

(* ===================================================================== *)
(** ** Facts about reading the body *)
(* ===================================================================== *)

Lemma max_size_pos : 0 < max_size.
Proof. reflexivity. Qed.

Lemma chunk_size_pos : 0 < chunk_size.
Proof. reflexivity. Qed.

Lemma len_nonneg (b : bytes) : 0 <= len b.
Proof. unfold len; lia. Qed.

Lemma len_app (a b : bytes) : len (a ++ b) = len a + len b.
Proof. unfold len; rewrite length_app; lia. Qed.

Lemma len_nil_iff (b : bytes) : len b = 0 <-> b = [].
Proof.
  unfold len; split; intros H.
  - destruct b; [reflexivity | simpl in H; lia].
  - subst; reflexivity.
Qed.

Lemma read_length (s : stream) (k : nat) (n : Z) (b : bytes) :
  0 <= n -> read s k n = Bytes b -> len b <= n.
Proof.
  unfold read, len; intros Hn H.
  destruct (s k) as [b0|m]; [|discriminate].
  injection H as <-. rewrite length_firstn. lia.
Qed.

Lemma loop_bound_unary : Pos.to_nat loop_bound = S (Z.to_nat max_size).
Proof.
  unfold loop_bound.
  pose proof max_size_pos as Hpos.
  rewrite <- Z2Nat.inj_succ by lia. unfold Z.succ.
  destruct (max_size + 1) as [|p|p] eqn:E; lia.
Qed.

(** Every pass that does not leave the loop adds at least one byte, so the
    room left under [max_size] bounds the number of passes. *)
Lemma chunk_loop_terminates (s : stream) :
  forall (n k : nat) (a : bytes),
    (Z.to_nat (max_size - len a) < n)%nat ->
    exists e, Loop.iterate_nat (chunk_step s) n (k, a) = inr e /\ loop_run s k a e.
Proof.
  induction n as [|n IH]; intros k a Hn; [lia|].
  cbn [Loop.iterate_nat]. unfold chunk_step at 1.
  destruct (len a <? max_size) eqn:Hlt.
  - apply Z.ltb_lt in Hlt.
    destruct (read s k chunk_size) as [[|x c]|m] eqn:Hr.
    + eexists; split; [reflexivity | now apply run_eof].
    + destruct (IH (S k) (a ++ x :: c)) as [e [He Hrun]].
      { rewrite len_app. unfold len at 2. simpl List.length. lia. }
      exists e; split; [exact He|].
      eapply run_chunk; eauto. discriminate.
    + eexists; split; [reflexivity | now apply run_raise].
  - apply Z.ltb_ge in Hlt.
    eexists; split; [reflexivity | now apply run_ceiling].
Qed.

(** The bound of [read_chunks] is never what stops the loop. *)
Lemma read_chunks_fuel (s : stream) (a : bytes) :
  exists e, Loop.iterate (chunk_step s) loop_bound (O, a) = inr e /\ loop_run s O a e.
Proof.
  rewrite LoopFacts.iterate_unary, loop_bound_unary.
  apply chunk_loop_terminates.
  pose proof (len_nonneg a). lia.
Qed.

Lemma read_chunks_run (s : stream) (a : bytes) : loop_run s O a (read_chunks s a).
Proof.
  unfold read_chunks.
  destruct (read_chunks_fuel s a) as [e [-> Hrun]]. exact Hrun.
Qed.

Lemma loop_run_length (s : stream) (k : nat) (a : bytes) (e : read_exit) :
  loop_run s k a e ->
  len a < max_size + chunk_size ->
  len (exit_data e) < max_size + chunk_size.
Proof.
  induction 1 as [k a H|k a H Hr|k a m H Hr|k a c e H Hr Hc Hrun IH]; intros Ha;
    simpl; try assumption.
  apply IH. rewrite len_app.
  pose proof chunk_size_pos as Hpos.
  assert (Hc' : len c <= chunk_size) by (apply (read_length s k); [lia | exact Hr]).
  lia.
Qed.

(** An exception leaves the loop with less than [max_size] bytes collected. *)
Lemma loop_run_raised (s : stream) (k : nat) (a : bytes) (m : string) (p : bytes) :
  loop_run s k a (Raised m p) -> len p < max_size.
Proof.
  intros H. remember (Raised m p) as e eqn:E.
  induction H; try discriminate; auto.
  injection E as -> ->. assumption.
Qed.

Lemma chunks_from_S (s : stream) (k n : nat) :
  chunks_from s k (S n) = chunk s k ++ chunks_from s (S k) n.
Proof. reflexivity. Qed.

Lemma chunks_from_snoc (s : stream) (k n : nat) :
  chunks_from s k (S n) = chunks_from s k n ++ chunk s (k + n).
Proof.
  unfold chunks_from. rewrite seq_S, map_app, concat_app. simpl.
  rewrite app_nil_r. reflexivity.
Qed.

(** On a stream that does not raise, the loop returns the first chunks up to
    the first empty one or the first moment [max_size] is reached. *)
Lemma loop_run_chunks (s : stream) (k : nat) (a : bytes) (e : read_exit) :
  loop_run s k a e ->
  (forall j, exists b, s j = Bytes b) ->
  exists n,
    e = Finished (a ++ chunks_from s k n)
    /\ (forall j, (j < n)%nat ->
                  chunk s (k + j) <> [] /\ len (a ++ chunks_from s k j) < max_size)
    /\ (max_size <= len (a ++ chunks_from s k n)
        \/ (len (a ++ chunks_from s k n) < max_size /\ chunk s (k + n) = [])).
Proof.
  intros Hrun Hs.
  induction Hrun as [k a H|k a H Hr|k a m H Hr|k a c e H Hr Hc Hrun IH].
  - exists O. unfold chunks_from; simpl. rewrite app_nil_r.
    split; [reflexivity|]. split; [intros j Hj; lia | now left].
  - exists O. unfold chunks_from; simpl. rewrite app_nil_r.
    split; [reflexivity|]. split; [intros j Hj; lia|].
    right. split; [assumption|]. unfold chunk. rewrite Nat.add_0_r, Hr. reflexivity.
  - exfalso. unfold read in Hr. destruct (Hs k) as [b Hb]. rewrite Hb in Hr. discriminate.
  - destruct IH as [n [He [Hbefore Hend]]].
    assert (Hck : chunk s k = c) by (unfold chunk; rewrite Hr; reflexivity).
    exists (S n). rewrite chunks_from_S, Hck, app_assoc.
    split; [exact He|]. split.
    + intros [|j] Hj.
      * rewrite Nat.add_0_r, Hck. unfold chunks_from; simpl. rewrite app_nil_r. now split.
      * rewrite chunks_from_S, Hck, app_assoc, <- plus_n_Sm.
        apply (Hbefore j). lia.
    + rewrite <- plus_n_Sm. exact Hend.
Qed.

Lemma read_body_from_undeclared (s : stream) (cl : option Z) (a : bytes) :
  length_declared cl = None -> read_body_from s cl a = read_chunks s a.
Proof. unfold read_body_from; intros ->; reflexivity. Qed.

Lemma read_chunks_length (s : stream) (a : bytes) :
  len a < max_size + chunk_size ->
  len (exit_data (read_chunks s a)) < max_size + chunk_size.
Proof. apply (loop_run_length s O), read_chunks_run. Qed.

(** Without a declared length, what [read_body] returns stays below
    [max_size + chunk_size], through the fallback too. *)
Lemma read_body_length (r : request) (audio_data : bytes) (log : list log_record) :
  length_declared (content_length r) = None ->
  read_body r = (inl audio_data, log) ->
  len audio_data < max_size + chunk_size.
Proof.
  intros Hcl. unfold read_body. rewrite Hcl.
  rewrite !read_body_from_undeclared by assumption.
  pose proof chunk_size_pos as Hc. pose proof max_size_pos as Hm.
  pose proof (read_chunks_run (req_stream r) []) as Hrun.
  pose proof (read_chunks_length (req_stream r) []) as Hlen.
  destruct (read_chunks (req_stream r) []) as [a|m p].
  - intros H; injection H as <- _. apply Hlen. unfold len; simpl; lia.
  - apply loop_run_raised in Hrun.
    destruct (wsgi_input r) as [w|].
    + rewrite read_body_from_undeclared by assumption.
      pose proof (read_chunks_length w p) as Hlen'.
      destruct (read_chunks w p) as [a'|m' p']; [|discriminate].
      intros H; injection H as <- _. apply Hlen'. lia.
    + intros H; injection H as <- _. simpl in Hlen. lia.
Qed.

Lemma fallback_attempts_app (l1 l2 : list log_record) :
  fallback_attempts (l1 ++ l2) = (fallback_attempts l1 + fallback_attempts l2)%nat.
Proof. unfold fallback_attempts. rewrite filter_app, length_app. reflexivity. Qed.

(** The handler, once the body has been read. *)
Lemma receive_audio_after_read (r : request) (c : clock) (d : directory)
      (x : bytes + response) (log1 : list log_record) :
  read_body r = (x, log1) ->
  receive_audio r c d =
  let log0 := content_type_warning (content_type_header r)
              ++ [Info_received (sample_rate_of r) (bits_of r) (channels_of r)
                    (get (content_type_header r) "") (content_length r)] in
  match x with
  | inr reply => (reply, d, log0 ++ log1)
  | inl [] =>
      ({| json := Error "No audio data received"; http_code := 400 |},
       d, log0 ++ log1 ++ [Warning_no_audio_data])
  | inl audio_data =>
      let d' := write_file (recording_name c) audio_data (now_mtime c) d in
      let log2 := log0 ++ log1 ++ [Info_saved (recording_name c) (len audio_data)] in
      match duration (sample_rate_of r) (bits_of r) (channels_of r) (len audio_data) with
      | inr rounded =>
          ({| json := Success
                {| message := "Audio received and saved";
                   filename := recording_name c;
                   size_bytes := len audio_data;
                   duration_seconds := rounded;
                   sample_rate := sample_rate_of r;
                   bits_per_sample := bits_of r;
                   channels := channels_of r |};
              http_code := 200 |},
           d', log2 ++ [Info_response (recording_name c) (len audio_data)])
      | inl e =>
          ({| json := Error ("Server error: " ++ str_exn e); http_code := 500 |},
           d', log2 ++ [Error_processing (str_exn e)])
      end
  end.
Proof.
  intros H. unfold receive_audio. rewrite H.
  destruct x as [[|b t]|rp]; reflexivity.
Qed.

(* ===================================================================== *)
(** ** Properties of [receive_audio] *)
(* ===================================================================== *)

(** C4. When reading the body yields zero bytes, the reply is the client
    error "No audio data received" with code 400, and the recordings
    directory is left as it was: no empty recording is stored. *)
Theorem empty_body_is_client_error (r : request) (c : clock) (d : directory)
        (log : list log_record) :
  read_body r = (inl [], log) ->
  reply (receive_audio r c d)
  = {| json := Error "No audio data received"; http_code := 400 |}
  /\ status (json (reply (receive_audio r c d))) = "error"%string
  /\ stored (receive_audio r c d) = d.
Proof.
  intros H. rewrite (receive_audio_after_read r c d _ _ H).
  repeat split.
Qed.

Lemma empty_body_is_client_error_witness :
  read_body request_empty = (inl [], [])
  /\ reply (receive_audio request_empty sample_clock [])
     = {| json := Error "No audio data received"; http_code := 400 |}
  /\ stored (receive_audio request_empty sample_clock []) = [].
Proof.
  assert (H : read_body request_empty = (inl [], [])) by (vm_compute; reflexivity).
  split; [exact H|].
  destruct (empty_body_is_client_error request_empty sample_clock [] [] H) as [H1 [_ H2]].
  split; assumption.
Defined.

(** C6. When the primary read raises, the fallback is entered exactly once
    and what it reads from the raw WSGI input is the body; if that read
    raises too, the reply is a client error (code 400) whose message carries
    the reason of the primary failure, and nothing is stored. *)
Theorem fallback_once_then_client_error (r : request) (c : clock) (d : directory)
        (stream_error : string) (partial : bytes) :
  read_body_from (req_stream r) (content_length r) [] = Raised stream_error partial ->
  fallback_attempts (logged (receive_audio r c d)) = 1%nat
  /\ (forall w audio_data,
        wsgi_input r = Some w ->
        read_body_from w (content_length r) partial = Finished audio_data ->
        fst (read_body r) = inl audio_data)
  /\ (forall w fallback_error partial',
        wsgi_input r = Some w ->
        read_body_from w (content_length r) partial = Raised fallback_error partial' ->
        reply (receive_audio r c d)
        = {| json := Error ("Failed to read audio stream: " ++ stream_error);
             http_code := 400 |}
        /\ status (json (reply (receive_audio r c d))) = "error"%string
        /\ stored (receive_audio r c d) = d).
Proof.
  intros Hprimary.
  assert (Hlog0 : fallback_attempts (content_type_warning (content_type_header r)) = O).
  { unfold content_type_warning. destruct (PyStr.contains _ _); reflexivity. }
  destruct (read_body r) as [x log1] eqn:Hread.
  rewrite (receive_audio_after_read r c d _ _ Hread).
  unfold read_body in Hread. rewrite Hprimary in Hread.
  split.
  - destruct (wsgi_input r) as [w|].
    + destruct (read_body_from w (content_length r) partial) as [a|m p];
        injection Hread as <- <-.
      * destruct a as [|b t]; cbv zeta; [|destruct (duration _ _ _ _)];
          unfold logged; cbn [snd]; rewrite !fallback_attempts_app, Hlog0; reflexivity.
      * cbv zeta. unfold logged; cbn [snd]. rewrite !fallback_attempts_app, Hlog0. reflexivity.
    + injection Hread as <- <-.
      destruct partial as [|b t]; cbv zeta; [|destruct (duration _ _ _ _)];
        unfold logged; cbn [snd]; rewrite !fallback_attempts_app, Hlog0; reflexivity.
  - split.
    + intros w a Hw Hfallback.
      rewrite Hw, Hfallback in Hread. injection Hread as <- <-. reflexivity.
    + intros w m p Hw Hfallback.
      rewrite Hw, Hfallback in Hread. injection Hread as <- <-.
      repeat split.
Qed.

Lemma fallback_once_then_client_error_witness :
  fallback_attempts (logged (receive_audio request_unreadable sample_clock [])) = 1%nat
  /\ reply (receive_audio request_unreadable sample_clock [])
     = {| json := Error "Failed to read audio stream: reset"; http_code := 400 |}.
Proof.
  assert (H : read_body_from (req_stream request_unreadable)
                (content_length request_unreadable) [] = Raised "reset" [])
    by (vm_compute; reflexivity).
  destruct (fallback_once_then_client_error request_unreadable sample_clock []
              "reset" [] H) as [H1 [_ H2]].
  split; [exact H1|].
  destruct (H2 (stream_of [Raise "closed"]) "closed"%string []) as [H3 _];
    [reflexivity | vm_compute; reflexivity | exact H3].
Defined.

(** C7. The declared content type does not change the reply or what is
    stored; it shows in the log only, as the warning when it lacks
    "audio/pcm" and in the record of the request. *)
Theorem content_type_is_not_validated (r : request) (c : clock) (d : directory) :
  (forall ct,
      reply (receive_audio (with_content_type r ct) c d) = reply (receive_audio r c d)
      /\ stored (receive_audio (with_content_type r ct) c d)
         = stored (receive_audio r c d))
  /\ exists tail,
      forall ct,
        logged (receive_audio (with_content_type r ct) c d)
        = content_type_warning ct
          ++ Info_received (sample_rate_of r) (bits_of r) (channels_of r)
               (get ct "") (content_length r) :: tail.
Proof.
  destruct (read_body r) as [x log1] eqn:Hread.
  assert (Hct : forall ct, read_body (with_content_type r ct) = (x, log1))
    by (intros ct; exact Hread).
  rewrite (receive_audio_after_read r c d _ _ Hread).
  split.
  - intros ct. rewrite (receive_audio_after_read _ c d _ _ (Hct ct)).
    destruct x as [[|b t]|rp]; cbv zeta; [split; reflexivity| |split; reflexivity].
    change (sample_rate_of (with_content_type r ct)) with (sample_rate_of r).
    change (bits_of (with_content_type r ct)) with (bits_of r).
    change (channels_of (with_content_type r ct)) with (channels_of r).
    destruct (duration _ _ _ _); split; reflexivity.
  - destruct x as [[|b t]|rp].
    + eexists. intros ct. rewrite (receive_audio_after_read _ c d _ _ (Hct ct)).
      cbv zeta. unfold logged; cbn [snd]. rewrite <- app_assoc. reflexivity.
    + destruct (duration (sample_rate_of r) (bits_of r) (channels_of r) (len (b :: t)))
        as [e|x] eqn:Hd;
        eexists; intros ct; rewrite (receive_audio_after_read _ c d _ _ (Hct ct));
        cbv zeta;
        change (sample_rate_of (with_content_type r ct)) with (sample_rate_of r);
        change (bits_of (with_content_type r ct)) with (bits_of r);
        change (channels_of (with_content_type r ct)) with (channels_of r);
        rewrite Hd; unfold logged; cbn [snd]; rewrite <- !app_assoc; reflexivity.
    + eexists. intros ct. rewrite (receive_audio_after_read _ c d _ _ (Hct ct)).
      cbv zeta. unfold logged; cbn [snd]. rewrite <- app_assoc. reflexivity.
Qed.

(** C9. The chunk loop ends on every stream: a pass that stays in the loop
    was entered below [max_size] and adds between one byte and one chunk,
    so at most [max_size + 1] passes are made; the bytes it returns, and the
    bytes the handler goes on with when no length was declared, number less
    than [max_size + chunk_size]. *)
Theorem read_loop_ends_below_ceiling_plus_chunk :
  (forall (s : stream) (k k' : nat) (a a' : bytes),
      chunk_step s (k, a) = inl (k', a') ->
      len a < max_size /\ len a < len a' <= len a + chunk_size)
  /\ (forall (s : stream) (k : nat) (a : bytes) (e : read_exit),
         chunk_step s (k, a) = inr e ->
         exit_data e = a
         /\ (max_size <= len a \/ read s k chunk_size = Bytes []
             \/ exists m, read s k chunk_size = Raise m))
  /\ (forall s : stream,
         exists (n : nat) (e : read_exit),
           Z.of_nat n <= max_size + 1
           /\ Loop.iterate_nat (chunk_step s) n (O, []) = inr e
           /\ read_chunks s [] = e
           /\ len (exit_data e) < max_size + chunk_size)
  /\ (forall (r : request) (audio_data : bytes) (log : list log_record),
         length_declared (content_length r) = None ->
         read_body r = (inl audio_data, log) ->
         len audio_data < max_size + chunk_size).
Proof.
  pose proof max_size_pos as Hm. pose proof chunk_size_pos as Hc.
  split; [|split; [|split]].
  - intros s k k' a a' H. unfold chunk_step in H.
    destruct (len a <? max_size) eqn:Hlt; [|discriminate].
    apply Z.ltb_lt in Hlt.
    destruct (read s k chunk_size) as [[|x c]|m] eqn:Hr; try discriminate.
    injection H as _ <-.
    apply read_length in Hr; [|lia].
    rewrite len_app. split; [assumption|].
    assert (0 < len (x :: c)) by (unfold len; simpl List.length; lia).
    lia.
  - intros s k a e H. unfold chunk_step in H.
    destruct (len a <? max_size) eqn:Hlt.
    + destruct (read s k chunk_size) as [[|x c]|m] eqn:Hr; try discriminate;
        injection H as <-; (split; [reflexivity|]); right;
        [left; reflexivity | right; eexists; reflexivity].
    + apply Z.ltb_ge in Hlt. injection H as <-. split; [reflexivity | now left].
  - intros s.
    destruct (chunk_loop_terminates s (S (Z.to_nat max_size)) O []) as [e [He Hrun]].
    { unfold len; simpl List.length. lia. }
    exists (S (Z.to_nat max_size)), e.
    split; [lia|]. split; [exact He|].
    assert (Hrc : read_chunks s [] = e).
    { unfold read_chunks.
      rewrite LoopFacts.iterate_unary, loop_bound_unary, He. reflexivity. }
    split; [exact Hrc|].
    rewrite <- Hrc. apply read_chunks_length. unfold len; simpl List.length. lia.
  - intros r audio_data log. apply read_body_length.
Qed.

Lemma read_loop_ends_below_ceiling_plus_chunk_witness :
  read_body request_streamed
  = (inl (three_bytes ++ three_bytes ++ [x07]), [])
  /\ len (three_bytes ++ three_bytes ++ [x07]) < max_size + chunk_size.
Proof.
  assert (H : read_body request_streamed
              = (inl (three_bytes ++ three_bytes ++ [x07]), []))
    by (vm_compute; reflexivity).
  split; [exact H|].
  destruct read_loop_ends_below_ceiling_plus_chunk as [_ [_ [_ Hbody]]].
  apply (Hbody request_streamed _ [] eq_refl H).
Defined.

(** C2, as it holds.  A reply with code 400 leaves the recordings directory
    as it was.  Otherwise the body was read, is not empty and has been
    written under the name of the moment, and the reply is either the
    success (200) or the server error (500) raised after the write. *)
Theorem client_error_creates_no_file (r : request) (c : clock) (d : directory) :
  (http_code (reply (receive_audio r c d)) = 400
   /\ status (json (reply (receive_audio r c d))) = "error"%string
   /\ stored (receive_audio r c d) = d)
  \/ (exists audio_data,
         audio_data <> []
         /\ fst (read_body r) = inl audio_data
         /\ stored (receive_audio r c d)
            = write_file (recording_name c) audio_data (now_mtime c) d
         /\ ((http_code (reply (receive_audio r c d)) = 200
              /\ status (json (reply (receive_audio r c d))) = "success"%string)
             \/ (http_code (reply (receive_audio r c d)) = 500
                 /\ status (json (reply (receive_audio r c d))) = "error"%string))).
Proof.
  destruct (read_body r) as [x log1] eqn:Hread.
  rewrite (receive_audio_after_read r c d _ _ Hread).
  destruct x as [[|b t]|rp].
  - left. repeat split.
  - right. exists (b :: t). split; [discriminate|]. split; [reflexivity|].
    cbv zeta. destruct (duration _ _ _ _); (split; [reflexivity|]);
      [right | left]; split; reflexivity.
  - left. unfold read_body in Hread.
    destruct (read_body_from (req_stream r) (content_length r) []) as [a|m p];
      [discriminate|].
    destruct (wsgi_input r) as [w|]; [|discriminate].
    destruct (read_body_from w (content_length r) p); [discriminate|].
    injection Hread as <- _. repeat split.
Qed.

(** C2, as stated, fails: two bytes posted with a sample rate that is not a
    number are answered with an error and yet stored. *)
Lemma failed_request_creates_no_file_counterexample :
  ~ failed_request_creates_no_file.
Proof.
  intros H.
  specialize (H request_bad_rate sample_clock []).
  assert (Hs : status (json (reply (receive_audio request_bad_rate sample_clock [])))
               <> "success"%string) by (vm_compute; discriminate).
  specialize (H Hs {| name := "recording_20240307_090501.pcm";
                      data := [x01; x02]; st_mtime := 1709802301 |}).
  assert (Hnew : exists_file "recording_20240307_090501.pcm" [] = true)
    by (apply H; vm_compute; left; reflexivity).
  discriminate Hnew.
Qed.


(* ===================================================================== *)
(** ** The duration *)
(* ===================================================================== *)

(** Rounding to a double stays finite on moderate arguments. *)
Section FloatFacts.
Import PyFloat.
Local Open Scope Q_scope.

Lemma rne_nonneg (q : Q) : 0 <= q -> (0 <= rne q)%Z.
Proof.
  intros Hq. unfold rne.
  assert (Hf : (0 <= Qfloor q)%Z).
  { change 0%Z with (Qfloor 0). now apply Qfloor_resp_le. }
  destruct (Qcompare _ _); [destruct (Z.even _)| |]; lia.
Qed.



Lemma pow2_pos (e : Z) : 0 < pow2 e.
Proof. apply Qpower_0_lt. reflexivity. Qed.




End FloatFacts.



(** One second of 16-bit mono audio at 16 kHz. *)
Example duration_one_second :
  duration "16000" "16" "1" 32000 = inr 1%Q.
Proof. vm_compute; reflexivity. Qed.

(** [round] works on the double: 1/200 lies just above 0.005 as a double
    and goes up to 0.01, 3/200 lies just below 0.015 and goes down to
    0.01; both results are the double nearest to 0.01. *)
Example duration_rounds_the_double :
  duration "200" "8" "1" 1 = inr (5764607523034235 # 576460752303423488)%Q
  /\ duration "200" "8" "1" 3 = inr (5764607523034235 # 576460752303423488)%Q
  /\ PyFloat.of_Q (1 # 100) = Some (5764607523034235 # 576460752303423488)%Q.
Proof. vm_compute. repeat split. Qed.

Lemma of_Q_value (q q' : Q) : (q == q')%Q -> PyFloat.of_Q q = PyFloat.of_Q q'.
Proof.
  intros H. unfold PyFloat.of_Q. rewrite (Qred_complete q q' H). reflexivity.
Qed.

(** A duration is reported only when all three headers are integers, and it
    is then the rounded quotient by [sr * (bits // 8 * ch)]. *)
Lemma duration_value (rate bits chans : string) (n : Z) (x : PyFloat.float)
      (sr b ch : Z) :
  duration rate bits chans n = inr x ->
  PyStr.int rate = Some sr -> PyStr.int bits = Some b -> PyStr.int chans = Some ch ->
  duration_floor n sr b ch = Some x.
Proof.
  unfold duration, duration_floor, PyFloat.true_div.
  intros H Hr Hb Hc. rewrite Hr, Hb, Hc in H. revert H.
  replace (sr * ch * (b / 8)) with (sr * (b / 8 * ch)) by ring.
  destruct (sr * (b / 8 * ch) =? 0); [discriminate|].
  destruct (PyFloat.of_Q _) as [y|]; [|discriminate].
  destruct (PyFloat.round2 y); [|discriminate].
  intros H; injection H as <-. reflexivity.
Qed.

(** For a whole number of bytes per sample, flooring changes nothing. *)
Lemma duration_floor_exact (n sr b ch : Z) :
  b mod 8 = 0 -> duration_floor n sr b ch = duration_exact n sr b ch.
Proof.
  intros Hb. unfold duration_floor, duration_exact.
  rewrite (of_Q_value
             (inject_Z n / inject_Z (sr * ch * (b / 8)))
             (inject_Z n / (inject_Z sr * inject_Z ch * (inject_Z b / 8)))).
  - reflexivity.
  - assert (Hq : (inject_Z b / 8 == inject_Z (b / 8))%Q).
    { rewrite (Z.div_mod b 8) at 1 by lia.
      rewrite Hb, Z.add_0_r, inject_Z_mult.
      change (inject_Z 8) with 8%Q. field. }
    rewrite Hq, !inject_Z_mult. reflexivity.
Qed.

(** C3, as it holds.  The duration of a success reply is the byte length
    divided by [sample_rate * channels * floor (bits / 8)], as a double,
    rounded to two decimals; when the bit depth is a multiple of 8 this is
    the exact formula. *)
Theorem duration_uses_whole_bytes_per_sample (r : request) (c : clock) (d : directory)
        (b : success_body) (sr bits ch : Z) :
  json (reply (receive_audio r c d)) = Success b ->
  PyStr.int (sample_rate_of r) = Some sr ->
  PyStr.int (bits_of r) = Some bits ->
  PyStr.int (channels_of r) = Some ch ->
  duration_floor (size_bytes b) sr bits ch = Some (duration_seconds b)
  /\ (bits mod 8 = 0 ->
      duration_exact (size_bytes b) sr bits ch = Some (duration_seconds b)).
Proof.
  intros Hjson Hsr Hbits Hch.
  assert (Hfloor : duration_floor (size_bytes b) sr bits ch = Some (duration_seconds b)).
  { destruct (read_body r) as [x log1] eqn:Hread.
    rewrite (receive_audio_after_read r c d _ _ Hread) in Hjson.
    destruct x as [[|y t]|rp].
    - discriminate.
    - cbv zeta in Hjson.
      destruct (duration (sample_rate_of r) (bits_of r) (channels_of r) (len (y :: t)))
        as [e|x] eqn:Hd; [discriminate|].
      injection Hjson as <-. cbn [size_bytes duration_seconds].
      eapply duration_value; eauto.
    - unfold read_body in Hread.
      destruct (read_body_from (req_stream r) (content_length r) []) as [a|m p];
        [discriminate|].
      destruct (wsgi_input r) as [w|]; [|discriminate].
      destruct (read_body_from w (content_length r) p); [discriminate|].
      injection Hread as <- _. discriminate. }
  split; [exact Hfloor|].
  intros Hmod. rewrite <- duration_floor_exact; assumption.
Qed.

Lemma duration_uses_whole_bytes_per_sample_witness :
  duration_floor 4 2 16 1 = Some 1%Q /\ duration_exact 4 2 16 1 = Some 1%Q.
Proof.
  destruct (duration_uses_whole_bytes_per_sample request_16_bits sample_clock []
              (success_of "2" "16" 4 1%Q) 2 16 1) as [H1 H2];
    try (vm_compute; reflexivity).
  split; [exact H1 | apply H2; reflexivity].
Defined.

(** C3, as stated, fails: three bytes of 12-bit samples at 1 Hz are reported
    as 3.0 seconds, where the exact formula gives 3 / 1.5 = 2.0. *)
Lemma duration_is_exact_counterexample : ~ duration_is_exact.
Proof.
  intros H.
  assert (Hd : duration_exact 3 1 12 1 = Some 3%Q).
  { apply (H request_12_bits sample_clock [] (success_of "1" "12" 3 3%Q));
      vm_compute; reflexivity. }
  vm_compute in Hd. discriminate.
Qed.

(* ===================================================================== *)
(** ** Properties of [list_recordings] *)
(* ===================================================================== *)

Lemma endswith_spec (suffix hay : string) :
  PyStr.endswith suffix hay = true <-> exists p, hay = (p ++ suffix)%string.
Proof.
  induction hay as [|c t IH]; cbn [PyStr.endswith].
  - rewrite orb_false_r, String.eqb_eq. split.
    + intros <-. exists EmptyString. reflexivity.
    + intros [p Hp]. destruct p; simpl in Hp; [assumption | discriminate].
  - rewrite orb_true_iff, String.eqb_eq, IH. split.
    + intros [<-|[p ->]]; [exists EmptyString | exists (String c p)]; reflexivity.
    + intros [[|c' p] Hp]; simpl in Hp.
      * left; assumption.
      * right. injection Hp as _ ->. exists p; reflexivity.
Qed.

Section SortedReverseFacts.
Context {A : Type}.
Variable key : A -> Z.

Lemma insert_desc_perm (x : A) (l : list A) :
  Permutation (insert_desc key x l) (x :: l).
Proof.
  induction l as [|y t IH]; simpl; [reflexivity|].
  destruct (key x <? key y); [|reflexivity].
  rewrite IH. apply perm_swap.
Qed.

Lemma sorted_reverse_perm (l : list A) : Permutation (sorted_reverse key l) l.
Proof.
  induction l as [|x t IH]; simpl; [reflexivity|].
  rewrite insert_desc_perm. now apply perm_skip.
Qed.

Lemma insert_desc_sorted (x : A) (l : list A) :
  StronglySorted (descending key) l -> StronglySorted (descending key) (insert_desc key x l).
Proof.
  induction 1 as [|y t Hs IH Hy]; simpl.
  - constructor; constructor.
  - destruct (key x <? key y) eqn:Hlt.
    + apply Z.ltb_lt in Hlt. constructor; [exact IH|].
      apply (Permutation_Forall (x := x :: t)).
      * symmetry. apply insert_desc_perm.
      * constructor; [unfold descending; lia | exact Hy].
    + apply Z.ltb_ge in Hlt. constructor; [now constructor|].
      constructor; [exact Hlt|].
      eapply Forall_impl; [|exact Hy].
      intros z Hz. unfold descending in *. lia.
Qed.

Lemma sorted_reverse_sorted (l : list A) :
  StronglySorted (descending key) (sorted_reverse key l).
Proof.
  induction l as [|x t IH]; simpl; [constructor|].
  now apply insert_desc_sorted.
Qed.
End SortedReverseFacts.


Lemma list_recordings_entries (d : directory) :
  recordings (fst (list_recordings d))
  = map entry (sorted_reverse st_mtime (glob_pcm d)).
Proof. reflexivity. Qed.

(** C10. Every entry of the listing is a file whose name ends in ".pcm"; a
    file of the directory with another ending has no entry, and [count] is
    the number of files ending in ".pcm". *)
Theorem list_recordings_only_pcm (d : directory) :
  (forall e, In e (recordings (fst (list_recordings d))) ->
             exists p, rec_filename e = (p ++ ".pcm")%string)
  /\ (forall f, In f d ->
                (forall p, name f <> (p ++ ".pcm")%string) ->
                forall e, In e (recordings (fst (list_recordings d))) ->
                          rec_filename e <> name f)
  /\ count (fst (list_recordings d))
     = Z.of_nat (List.length
                   (filter (fun f => PyStr.endswith ".pcm" (name f)) d)).
Proof.
  assert (Hin : forall e, In e (recordings (fst (list_recordings d))) ->
                          exists p, rec_filename e = (p ++ ".pcm")%string).
  { intros e He. rewrite list_recordings_entries in He.
    apply in_map_iff in He. destruct He as [f [<- Hf]].
    apply (Permutation_in _ (sorted_reverse_perm st_mtime (glob_pcm d))) in Hf.
    unfold glob_pcm in Hf. apply filter_In in Hf. destruct Hf as [_ Hf].
    apply endswith_spec in Hf. exact Hf. }
  split; [exact Hin|]. split.
  - intros f _ Hf e He Heq. destruct (Hin e He) as [p Hp].
    apply (Hf p). congruence.
  - unfold list_recordings; cbn [fst count].
    rewrite length_map.
    rewrite (Permutation_length (sorted_reverse_perm st_mtime (glob_pcm d))).
    reflexivity.
Qed.

(* ===================================================================== *)
(** ** The body-reading policy *)
(* ===================================================================== *)





(* ===================================================================== *)
(** ** What an upload does to the recordings directory *)
(* ===================================================================== *)

Lemma write_file_find (n : string) (b : bytes) (m : Z) (d : directory) :
  find_file n (write_file n b m d)
  = Some {| name := n; data := b; st_mtime := m |}.
Proof.
  unfold find_file. induction d as [|f d IH]; simpl.
  - rewrite String.eqb_refl. reflexivity.
  - destruct (String.eqb (name f) n) eqn:E; simpl.
    + rewrite String.eqb_refl. reflexivity.
    + rewrite E. exact IH.
Qed.

Lemma write_file_find_other (n n' : string) (b : bytes) (m : Z) (d : directory) :
  n' <> n -> find_file n' (write_file n b m d) = find_file n' d.
Proof.
  intros Hne. unfold find_file. induction d as [|f d IH]; simpl.
  - destruct (String.eqb n n') eqn:E; [|reflexivity].
    apply String.eqb_eq in E. congruence.
  - destruct (String.eqb (name f) n) eqn:E; simpl.
    + apply String.eqb_eq in E.
      destruct (String.eqb n n') eqn:E1; [apply String.eqb_eq in E1; congruence|].
      destruct (String.eqb (name f) n') eqn:E2; [|reflexivity].
      apply String.eqb_eq in E2. congruence.
    + destruct (String.eqb (name f) n'); [reflexivity | exact IH].
Qed.

Lemma write_file_keeps (n : string) (b : bytes) (m : Z) (d : directory) (f : file) :
  In f d -> name f <> n -> In f (write_file n b m d).
Proof.
  intros Hin Hne. induction d as [|g d IH]; simpl; [contradiction|].
  destruct Hin as [->|Hin].
  - destruct (String.eqb (name f) n) eqn:E; [|now left].
    apply String.eqb_eq in E. contradiction.
  - destruct (String.eqb (name g) n); right; [exact Hin | exact (IH Hin)].
Qed.

Lemma write_file_In (n : string) (b : bytes) (m : Z) (d : directory) (f : file) :
  In f (write_file n b m d) ->
  f = {| name := n; data := b; st_mtime := m |} \/ In f d.
Proof.
  induction d as [|g d IH]; simpl.
  - intros [<-|[]]. now left.
  - destruct (String.eqb (name g) n); simpl.
    + intros [<-|Hin]; [now left | right; now right].
    + intros [<-|Hin]; [right; now left|].
      destruct (IH Hin) as [->|H]; [now left | right; now right].
Qed.

Lemma write_file_names (n : string) (b : bytes) (m : Z) (d : directory) :
  map name (write_file n b m d)
  = if exists_file n d then map name d else (map name d ++ [n])%list.
Proof.
  unfold exists_file. induction d as [|f d IH]; simpl; [reflexivity|].
  destruct (String.eqb (name f) n) eqn:E; simpl.
  - apply String.eqb_eq in E. rewrite E. reflexivity.
  - rewrite IH. destruct (existsb _ d); reflexivity.
Qed.

Lemma exists_file_In (n : string) (d : directory) :
  exists_file n d = true <-> In n (map name d).
Proof.
  unfold exists_file. rewrite existsb_exists, in_map_iff. split.
  - intros [f [Hin E]]. apply String.eqb_eq in E. exists f; split; assumption.
  - intros [f [E Hin]]. exists f; split; [assumption | now apply String.eqb_eq].
Qed.

Lemma write_file_length (n : string) (b : bytes) (m : Z) (d : directory) :
  List.length (write_file n b m d)
  = if exists_file n d then List.length d else S (List.length d).
Proof.
  rewrite <- (length_map name), write_file_names.
  destruct (exists_file n d); rewrite ?length_app, length_map; simpl; lia.
Qed.

(** A request either leaves the directory alone or writes the body it has
    read under the name of the moment. *)
Lemma receive_audio_stored (r : request) (c : clock) (d : directory) :
  (http_code (reply (receive_audio r c d)) = 400
   /\ stored (receive_audio r c d) = d)
  \/ (exists audio_data,
         audio_data <> []
         /\ fst (read_body r) = inl audio_data
         /\ http_code (reply (receive_audio r c d)) <> 400
         /\ stored (receive_audio r c d)
            = write_file (recording_name c) audio_data (now_mtime c) d).
Proof.
  destruct (read_body r) as [x log1] eqn:Hread.
  rewrite (receive_audio_after_read r c d _ _ Hread).
  destruct x as [[|b t]|rp].
  - left. split; reflexivity.
  - right. exists (b :: t). split; [discriminate|]. split; [reflexivity|].
    cbv zeta. destruct (duration _ _ _ _); split; (discriminate || reflexivity).
  - left. unfold read_body in Hread.
    destruct (read_body_from (req_stream r) (content_length r) []) as [a|m p];
      [discriminate|].
    destruct (wsgi_input r) as [w|]; [|discriminate].
    destruct (read_body_from w (content_length r) p); [discriminate|].
    injection Hread as <- _. split; reflexivity.
Qed.

(** A success reply has all its fields read off the request and the body. *)
Lemma receive_audio_success (r : request) (c : clock) (d : directory)
      (b : success_body) :
  json (reply (receive_audio r c d)) = Success b ->
  exists audio_data,
    audio_data <> []
    /\ fst (read_body r) = inl audio_data
    /\ stored (receive_audio r c d)
       = write_file (recording_name c) audio_data (now_mtime c) d
    /\ filename b = recording_name c
    /\ size_bytes b = len audio_data
    /\ sample_rate b = sample_rate_of r
    /\ bits_per_sample b = bits_of r
    /\ channels b = channels_of r
    /\ duration (sample_rate_of r) (bits_of r) (channels_of r) (len audio_data)
       = inr (duration_seconds b).
Proof.
  destruct (read_body r) as [x log1] eqn:Hread.
  rewrite (receive_audio_after_read r c d _ _ Hread).
  destruct x as [[|y t]|rp].
  - discriminate.
  - cbv zeta.
    destruct (duration (sample_rate_of r) (bits_of r) (channels_of r) (len (y :: t)))
      as [e|x] eqn:Hd; [discriminate|].
    intros H. injection H as <-. exists (y :: t).
    split; [discriminate|]. repeat (split; [reflexivity|]). exact Hd.
  - unfold read_body in Hread.
    destruct (read_body_from (req_stream r) (content_length r) []) as [a|m p];
      [discriminate|].
    destruct (wsgi_input r) as [w|]; [|discriminate].
    destruct (read_body_from w (content_length r) p); [discriminate|].
    injection Hread as <- _. discriminate.
Qed.

(** X1. A success reply describes what was stored: the directory then holds, under
    the file name of the reply, the bytes that were read, stamped with the
    time of the write; [size_bytes] is their number and is positive, and the
    three audio parameters are echoed as the header strings received. *)
Theorem success_reply_describes_stored_file (r : request) (c : clock) (d : directory)
        (b : success_body) :
  json (reply (receive_audio r c d)) = Success b ->
  exists audio_data,
    fst (read_body r) = inl audio_data
    /\ find_file (filename b) (stored (receive_audio r c d))
       = Some {| name := filename b; data := audio_data; st_mtime := now_mtime c |}
    /\ size_bytes b = len audio_data
    /\ 0 < size_bytes b
    /\ sample_rate b = sample_rate_of r
    /\ bits_per_sample b = bits_of r
    /\ channels b = channels_of r.
Proof.
  intros H. destruct (receive_audio_success r c d b H)
    as [a [Hne [Hread [Hst [Hn [Hsz [Hsr [Hb [Hc _]]]]]]]]].
  exists a. split; [exact Hread|]. split.
  - rewrite Hst, Hn. apply write_file_find.
  - repeat split; try assumption.
    rewrite Hsz. destruct a; [contradiction|]. unfold len. simpl List.length. lia.
Qed.

Lemma success_reply_describes_stored_file_witness :
  exists audio_data,
    fst (read_body request_16_bits) = inl audio_data
    /\ find_file (recording_name sample_clock)
         (stored (receive_audio request_16_bits sample_clock []))
       = Some {| name := recording_name sample_clock; data := audio_data;
                 st_mtime := now_mtime sample_clock |}
    /\ 4 = len audio_data
    /\ 0 < 4
    /\ "2"%string = sample_rate_of request_16_bits
    /\ "16"%string = bits_of request_16_bits
    /\ "1"%string = channels_of request_16_bits.
Proof.
  apply (success_reply_describes_stored_file request_16_bits sample_clock []
           (success_of "2" "16" 4 1%Q)).
  vm_compute; reflexivity.
Defined.

(** X2. A request never removes or changes a file of another name: such files
    stay, every file found afterwards is an old one or the recording just
    written, and looking up any other name gives what it gave before. *)
Theorem other_recordings_are_kept (r : request) (c : clock) (d : directory) :
  (forall f, In f d -> name f <> recording_name c ->
             In f (stored (receive_audio r c d)))
  /\ (forall f, In f (stored (receive_audio r c d)) ->
                In f d
                \/ exists audio_data,
                     fst (read_body r) = inl audio_data
                     /\ f = recording_file c audio_data)
  /\ (forall n, n <> recording_name c ->
                find_file n (stored (receive_audio r c d)) = find_file n d).
Proof.
  destruct (receive_audio_stored r c d) as [[_ ->]|[a [_ [Hread [_ ->]]]]].
  - split; [auto|]. split; [auto | reflexivity].
  - split; [|split].
    + intros f Hin Hne. now apply write_file_keeps.
    + intros f Hin. apply write_file_In in Hin. destruct Hin as [->|Hin]; [|now left].
      right. exists a. split; [exact Hread | reflexivity].
    + intros n Hn. now apply write_file_find_other.
Qed.

(* ===================================================================== *)
(** ** File names *)
(* ===================================================================== *)

Lemma digit_char_inj (a b : Z) :
  PyStr.digit_char a = PyStr.digit_char b -> a mod 10 = b mod 10.
Proof.
  unfold PyStr.digit_char. intros H.
  apply (f_equal nat_of_ascii) in H.
  pose proof (Z.mod_pos_bound a 10 ltac:(lia)) as Ha.
  pose proof (Z.mod_pos_bound b 10 ltac:(lia)) as Hb.
  rewrite !nat_ascii_embedding in H by lia.
  lia.
Qed.

Lemma pad2_inj (a b : Z) :
  0 <= a < 100 -> 0 <= b < 100 -> PyStr.pad2 a = PyStr.pad2 b -> a = b.
Proof.
  unfold PyStr.pad2. intros Ha Hb H.
  injection H as H1 H2.
  apply digit_char_inj in H1. apply digit_char_inj in H2.
  revert H1 H2. Z.div_mod_to_equations. lia.
Qed.

Lemma pad4_inj (a b : Z) :
  0 <= a < 10000 -> 0 <= b < 10000 -> PyStr.pad4 a = PyStr.pad4 b -> a = b.
Proof.
  unfold PyStr.pad4, PyStr.pad2. intros Ha Hb H.
  injection H as H1 H2 H3 H4.
  apply digit_char_inj in H1. apply digit_char_inj in H2.
  apply digit_char_inj in H3. apply digit_char_inj in H4.
  revert H1 H2 H3 H4. Z.div_mod_to_equations. lia.
Qed.

Lemma recording_name_strftime (c1 c2 : clock) :
  recording_name c1 = recording_name c2 <->
  PyStr.pad4 (year (now c1)) = PyStr.pad4 (year (now c2))
  /\ PyStr.pad2 (month (now c1)) = PyStr.pad2 (month (now c2))
  /\ PyStr.pad2 (day (now c1)) = PyStr.pad2 (day (now c2))
  /\ PyStr.pad2 (hour (now c1)) = PyStr.pad2 (hour (now c2))
  /\ PyStr.pad2 (minute (now c1)) = PyStr.pad2 (minute (now c2))
  /\ PyStr.pad2 (second (now c1)) = PyStr.pad2 (second (now c2)).
Proof.
  unfold recording_name, strftime, PyStr.pad4, PyStr.pad2. cbn [String.append].
  split.
  - intros H. injection H as Hy1 Hy2 Hy3 Hy4 Hmo1 Hmo2 Hd1 Hd2 Hh1 Hh2 Hmi1 Hmi2 Hs1 Hs2.
    repeat split; congruence.
  - intros [Hy [Hmo [Hd [Hh [Hmi Hs]]]]].
    injection Hy as -> -> -> ->. injection Hmo as -> ->. injection Hd as -> ->.
    injection Hh as -> ->. injection Hmi as -> ->. injection Hs as -> ->.
    reflexivity.
Qed.

(** X3. Two recordings get the same file name exactly when the local date and time
    of their writes agree to the second. *)
Theorem same_name_iff_same_second (c1 c2 : clock) :
  valid_datetime (now c1) -> valid_datetime (now c2) ->
  (recording_name c1 = recording_name c2 <-> now c1 = now c2).
Proof.
  intros V1 V2. split.
  - intros H. apply recording_name_strftime in H.
    destruct H as [Hy [Hmo [Hd [Hh [Hmi Hs]]]]].
    unfold valid_datetime in V1, V2.
    destruct (now c1) as [y1 mo1 d1 h1 mi1 s1], (now c2) as [y2 mo2 d2 h2 mi2 s2].
    cbn [year month day hour minute second] in *.
    apply pad4_inj in Hy; [|lia|lia].
    apply pad2_inj in Hmo; [|lia|lia]. apply pad2_inj in Hd; [|lia|lia].
    apply pad2_inj in Hh; [|lia|lia]. apply pad2_inj in Hmi; [|lia|lia].
    apply pad2_inj in Hs; [|lia|lia].
    congruence.
  - intros H. unfold recording_name. rewrite H. reflexivity.
Qed.

(* ===================================================================== *)
(** ** More on reading the body *)
(* ===================================================================== *)

Lemma length_declared_spec (cl : option Z) (n : Z) :
  length_declared cl = Some n <-> cl = Some n /\ 0 < n.
Proof.
  unfold length_declared. destruct cl as [m|].
  - destruct (negb (m =? 0) && (0 <? m)) eqn:E.
    + apply andb_true_iff in E. destruct E as [_ E]. apply Z.ltb_lt in E.
      split.
      * intros H; injection H as <-. split; [reflexivity | exact E].
      * intros [H _]. exact H.
    + split; [discriminate|]. intros [H Hn]. injection H as ->.
      assert (E1 : (n =? 0) = false) by (apply Z.eqb_neq; lia).
      assert (E2 : (0 <? n) = true) by (apply Z.ltb_lt; lia).
      rewrite E1, E2 in E. discriminate.
  - split; [discriminate | intros [H _]; discriminate].
Qed.

Lemma length_declared_none (cl : option Z) :
  length_declared cl = None <-> cl = None \/ exists n, cl = Some n /\ n <= 0.
Proof.
  destruct (length_declared cl) as [n|] eqn:E.
  - apply length_declared_spec in E. destruct E as [-> Hn].
    split; [discriminate|]. intros [H|[m [H Hm]]]; [discriminate|].
    injection H as ->. lia.
  - split; [|reflexivity]. intros _.
    destruct cl as [m|]; [|now left]. right. exists m. split; [reflexivity|].
    destruct (Z.le_gt_cases m 0) as [H|H]; [exact H|].
    assert (Hs : length_declared (Some m) = Some m)
      by (apply length_declared_spec; split; [reflexivity | lia]).
    congruence.
Qed.

(** [read_body] looks at the Content-Length through [length_declared] only. *)
Lemma read_body_length_declared (r r' : request) :
  req_stream r = req_stream r' -> wsgi_input r = wsgi_input r' ->
  length_declared (content_length r) = length_declared (content_length r') ->
  read_body r = read_body r'.
Proof.
  intros Hs Hw Hl. unfold read_body, read_body_from. rewrite Hs, Hw, Hl. reflexivity.
Qed.

(** X5. A Content-Length of zero or less is treated as no Content-Length: the body
    is read by the chunk loop, and the reply and the directory are those of
    the same request without the header. *)
Theorem content_length_zero_is_undeclared (r : request) (c : clock) (d : directory)
        (n : Z) :
  n <= 0 ->
  reply (receive_audio (with_content_length r (Some n)) c d)
  = reply (receive_audio (with_content_length r None) c d)
  /\ stored (receive_audio (with_content_length r (Some n)) c d)
     = stored (receive_audio (with_content_length r None) c d)
  /\ read_body_from (req_stream r) (Some n) [] = read_chunks (req_stream r) [].
Proof.
  intros Hn.
  assert (Hl : length_declared (Some n) = None).
  { apply length_declared_none. right. exists n. split; [reflexivity | exact Hn]. }
  assert (Hrb : read_body (with_content_length r (Some n))
                = read_body (with_content_length r None)).
  { apply read_body_length_declared; try reflexivity. exact Hl. }
  destruct (read_body (with_content_length r None)) as [x log1] eqn:Hread.
  rewrite (receive_audio_after_read _ c d _ _ Hread).
  rewrite (receive_audio_after_read _ c d _ _ Hrb).
  split; [|split].
  - destruct x as [[|b t]|rp]; cbv zeta; try reflexivity.
    change (sample_rate_of (with_content_length r (Some n))) with (sample_rate_of r).
    change (bits_of (with_content_length r (Some n))) with (bits_of r).
    change (channels_of (with_content_length r (Some n))) with (channels_of r).
    change (sample_rate_of (with_content_length r None)) with (sample_rate_of r).
    change (bits_of (with_content_length r None)) with (bits_of r).
    change (channels_of (with_content_length r None)) with (channels_of r).
    destruct (duration _ _ _ _); reflexivity.
  - destruct x as [[|b t]|rp]; cbv zeta; try reflexivity.
    change (sample_rate_of (with_content_length r (Some n))) with (sample_rate_of r).
    change (bits_of (with_content_length r (Some n))) with (bits_of r).
    change (channels_of (with_content_length r (Some n))) with (channels_of r).
    change (sample_rate_of (with_content_length r None)) with (sample_rate_of r).
    change (bits_of (with_content_length r None)) with (bits_of r).
    change (channels_of (with_content_length r None)) with (channels_of r).
    destruct (duration _ _ _ _); reflexivity.
  - apply read_body_from_undeclared. exact Hl.
Qed.

Lemma read_declared (s : stream) (cl : option Z) (a : bytes) (n : Z) (e : read_exit) :
  length_declared cl = Some n ->
  read_body_from s cl a = e ->
  match e with
  | Finished b => len b <= n
  | Raised _ p => p = a
  end.
Proof.
  intros Hl <-. unfold read_body_from. rewrite Hl.
  apply length_declared_spec in Hl. destruct Hl as [_ Hn].
  destruct (read s O n) as [b|m] eqn:Hr; [|reflexivity].
  apply (read_length s O); [lia | exact Hr].
Qed.

(** X6. Under a positive Content-Length [n] no more than [n] bytes are taken,
    through the fallback too: the body, the [size_bytes] of a success reply
    and the file written have at most [n] bytes. *)
Theorem declared_length_bounds_body (r : request) (c : clock) (d : directory) (n : Z) :
  length_declared (content_length r) = Some n ->
  (forall audio_data, fst (read_body r) = inl audio_data -> len audio_data <= n)
  /\ (forall b, json (reply (receive_audio r c d)) = Success b -> size_bytes b <= n)
  /\ (forall f, In f (stored (receive_audio r c d)) -> In f d \/ len (data f) <= n).
Proof.
  intros Hl.
  assert (Hbody : forall audio_data, fst (read_body r) = inl audio_data ->
                                     len audio_data <= n).
  { intros a. unfold read_body.
    pose proof (read_declared (req_stream r) (content_length r) [] n _ Hl eq_refl) as H1.
    destruct (read_body_from (req_stream r) (content_length r) []) as [b|m p].
    - cbn [fst]. intros H; injection H as <-. exact H1.
    - subst p. destruct (wsgi_input r) as [w|].
      + pose proof (read_declared w (content_length r) [] n _ Hl eq_refl) as H2.
        destruct (read_body_from w (content_length r) []) as [b'|m' p'].
        * cbn [fst]. intros H; injection H as <-. exact H2.
        * cbn [fst]. discriminate.
      + cbn [fst]. intros H; injection H as <-.
        apply length_declared_spec in Hl. unfold len; simpl List.length. lia. }
  split; [exact Hbody|]. split.
  - intros b Hb. destruct (receive_audio_success r c d b Hb)
      as [a [_ [Hread [_ [_ [Hsz _]]]]]]. rewrite Hsz. now apply Hbody.
  - intros f Hin.
    destruct (receive_audio_stored r c d) as [[_ E]|[a [_ [Hread [_ E]]]]];
      rewrite E in Hin; [now left|].
    apply write_file_In in Hin. destruct Hin as [->|Hin]; [|now left].
    right. cbn [data]. now apply Hbody.
Qed.

Lemma loop_run_extends (s : stream) (k : nat) (a : bytes) (e : read_exit) :
  loop_run s k a e -> exists rest, exit_data e = (a ++ rest)%list.
Proof.
  induction 1 as [k a H|k a H Hr|k a m H Hr|k a c e H Hr Hc Hrun IH];
    try (exists []; simpl; rewrite app_nil_r; reflexivity).
  destruct IH as [rest ->]. exists (c ++ rest)%list. rewrite app_assoc. reflexivity.
Qed.

Lemma read_body_from_extends (s : stream) (cl : option Z) (a : bytes) :
  length_declared cl = None ->
  exists rest, exit_data (read_body_from s cl a) = (a ++ rest)%list.
Proof.
  intros Hl. rewrite read_body_from_undeclared by exact Hl.
  apply (loop_run_extends s O), read_chunks_run.
Qed.

(** X7. When the primary read raises, the bytes collected before the exception
    (none under a declared length, fewer than [max_size] otherwise) are kept:
    whatever body the handler goes on with starts with them, and without
    [wsgi.input] they are the whole body. *)
Theorem partial_body_survives_failure (r : request) (stream_error : string)
        (partial : bytes) :
  read_body_from (req_stream r) (content_length r) [] = Raised stream_error partial ->
  (length_declared (content_length r) <> None -> partial = [])
  /\ len partial < max_size
  /\ (wsgi_input r = None -> fst (read_body r) = inl partial)
  /\ (forall audio_data,
         fst (read_body r) = inl audio_data ->
         exists rest, audio_data = (partial ++ rest)%list).
Proof.
  intros Hprimary.
  assert (Hdecl : length_declared (content_length r) <> None -> partial = []).
  { intros Hl. destruct (length_declared (content_length r)) as [n|] eqn:E;
      [|contradiction].
    pose proof (read_declared _ _ [] n _ E Hprimary) as H. exact H. }
  split; [exact Hdecl|]. split; [|split].
  - destruct (length_declared (content_length r)) as [n|] eqn:E.
    + rewrite Hdecl by discriminate. reflexivity.
    + rewrite read_body_from_undeclared in Hprimary by exact E.
      pose proof (read_chunks_run (req_stream r) []) as Hrun.
      rewrite Hprimary in Hrun. now apply loop_run_raised in Hrun.
  - intros Hw. unfold read_body. rewrite Hprimary, Hw. reflexivity.
  - intros a. unfold read_body. rewrite Hprimary.
    destruct (wsgi_input r) as [w|].
    + destruct (length_declared (content_length r)) as [n|] eqn:E.
      * rewrite Hdecl by discriminate.
        destruct (read_body_from w (content_length r) []); cbn [fst];
          [|discriminate].
        intros H; injection H as <-. eexists; reflexivity.
      * destruct (read_body_from_extends w (content_length r) partial E) as [rest Hrest].
        destruct (read_body_from w (content_length r) partial); cbn [fst];
          [|discriminate].
        intros H; injection H as <-. exists rest. exact Hrest.
    + cbn [fst]. intros H; injection H as <-. exists []. now rewrite app_nil_r.
Qed.

(* ===================================================================== *)
(** ** Uploads as seen by the listing *)
(* ===================================================================== *)

Lemma recording_name_pcm (c : clock) : PyStr.endswith ".pcm" (recording_name c) = true.
Proof.
  apply endswith_spec. exists ("recording_" ++ strftime (now c))%string.
  unfold recording_name. simpl. reflexivity.
Qed.

Lemma glob_pcm_write_file (n : string) (b : bytes) (m : Z) (d : directory) :
  PyStr.endswith ".pcm" n = true ->
  In {| name := n; data := b; st_mtime := m |} (glob_pcm (write_file n b m d))
  /\ List.length (glob_pcm (write_file n b m d))
     = if exists_file n d then List.length (glob_pcm d)
       else S (List.length (glob_pcm d)).
Proof.
  intros Hn. unfold glob_pcm, exists_file. induction d as [|f d [IH1 IH2]]; simpl.
  - rewrite Hn. split; [now left | reflexivity].
  - destruct (String.eqb (name f) n) eqn:E; simpl.
    + apply String.eqb_eq in E. rewrite Hn, E, Hn. split; [now left | reflexivity].
    + destruct (PyStr.endswith ".pcm" (name f)); simpl.
      * split; [now right|]. rewrite IH2. destruct (existsb _ d); reflexivity.
      * split; [exact IH1 | exact IH2].
Qed.

Lemma sorted_reverse_head {A : Type} (key : A -> Z) (l : list A) (x : A) :
  In x l -> (forall y, In y l -> y = x \/ key y < key x) ->
  hd_error (sorted_reverse key l) = Some x.
Proof.
  intros Hin Hmax.
  pose proof (sorted_reverse_sorted key l) as Hs.
  pose proof (sorted_reverse_perm key l) as Hp.
  destruct (sorted_reverse key l) as [|h t].
  - apply Permutation_nil in Hp. subst l. contradiction.
  - simpl. f_equal.
    assert (Hh : In h l) by (apply (Permutation_in _ Hp); now left).
    destruct (Hmax h Hh) as [E|Hlt]; [exact E|].
    exfalso. apply StronglySorted_inv in Hs. destruct Hs as [_ Hall].
    assert (Hx : In x (h :: t)) by (apply (Permutation_in _ (Permutation_sym Hp)); exact Hin).
    destruct Hx as [E|Hx]; [subst; lia|].
    rewrite Forall_forall in Hall. specialize (Hall x Hx). unfold descending in Hall. lia.
Qed.

(** X13. An accepted upload shows in the listing made afterwards, under the file
    name and size of the reply; when every older file has an earlier
    modification time it is the first entry. *)
Theorem accepted_upload_is_listed (r : request) (c : clock) (d : directory)
        (b : success_body) :
  json (reply (receive_audio r c d)) = Success b ->
  In {| rec_filename := filename b;
        rec_size_bytes := size_bytes b;
        rec_created := now_mtime c |}
     (recordings (fst (list_recordings (stored (receive_audio r c d)))))
  /\ ((forall f, In f d -> st_mtime f < now_mtime c) ->
      hd_error (recordings (fst (list_recordings (stored (receive_audio r c d)))))
      = Some {| rec_filename := filename b;
                rec_size_bytes := size_bytes b;
                rec_created := now_mtime c |}).
Proof.
  intros Hb.
  destruct (receive_audio_success r c d b Hb)
    as [a [_ [_ [Hst [Hn [Hsz _]]]]]].
  rewrite list_recordings_entries, Hst, Hn, Hsz.
  destruct (glob_pcm_write_file (recording_name c) a (now_mtime c) d
              (recording_name_pcm c)) as [Hin _].
  change {| rec_filename := recording_name c; rec_size_bytes := len a;
            rec_created := now_mtime c |}
    with (entry {| name := recording_name c; data := a; st_mtime := now_mtime c |}).
  split.
  - apply in_map.
    apply (Permutation_in _ (Permutation_sym (sorted_reverse_perm st_mtime _))).
    exact Hin.
  - intros Hnew.
    assert (Hhd : hd_error (sorted_reverse st_mtime
                    (glob_pcm (write_file (recording_name c) a (now_mtime c) d)))
                  = Some {| name := recording_name c; data := a;
                            st_mtime := now_mtime c |});
      [apply sorted_reverse_head
      | destruct (sorted_reverse st_mtime _) as [|h t]; [discriminate|];
        injection Hhd as ->; reflexivity].
    + exact Hin.
    + intros y Hy. unfold glob_pcm in Hy. apply filter_In in Hy. destruct Hy as [Hy _].
      apply write_file_In in Hy. destruct Hy as [->|Hy]; [now left|].
      right. cbn [st_mtime]. now apply Hnew.
Qed.

(** X14. After a request the listing counts one more recording, unless the request
    was answered 400 or a recording of the same name existed. *)
Theorem listing_count_after_upload (r : request) (c : clock) (d : directory) :
  count (fst (list_recordings (stored (receive_audio r c d))))
  = if (http_code (reply (receive_audio r c d)) =? 400)
       || exists_file (recording_name c) d
    then count (fst (list_recordings d))
    else count (fst (list_recordings d)) + 1.
Proof.
  assert (Hc : forall d0, count (fst (list_recordings d0))
                          = Z.of_nat (List.length (glob_pcm d0))).
  { intros d0. unfold list_recordings; cbn [fst count].
    rewrite length_map, (Permutation_length (sorted_reverse_perm st_mtime _)).
    reflexivity. }
  rewrite !Hc.
  destruct (receive_audio_stored r c d) as [[H ->]|[a [_ [_ [Hcode ->]]]]].
  - rewrite H. reflexivity.
  - apply Z.eqb_neq in Hcode. rewrite Hcode. cbn [orb].
    destruct (glob_pcm_write_file (recording_name c) a (now_mtime c) d
                (recording_name_pcm c)) as [_ ->].
    destruct (exists_file (recording_name c) d); lia.
Qed.

Lemma insert_desc_filter {A : Type} (key : A -> Z) (t : Z) (x : A) (l : list A) :
  filter (fun y => key y =? t) (insert_desc key x l)
  = (if key x =? t then [x] else []) ++ filter (fun y => key y =? t) l.
Proof.
  induction l as [|y l IH]; simpl.
  - destruct (key x =? t); reflexivity.
  - destruct (key x <? key y) eqn:Hlt; simpl.
    + rewrite IH. apply Z.ltb_lt in Hlt.
      destruct (Z.eqb_spec (key y) t) as [Ey|Ey]; [|reflexivity].
      destruct (Z.eqb_spec (key x) t) as [Ex|Ex]; [lia | reflexivity].
    + destruct (key x =? t); reflexivity.
Qed.

Lemma sorted_reverse_filter {A : Type} (key : A -> Z) (t : Z) (l : list A) :
  filter (fun y => key y =? t) (sorted_reverse key l)
  = filter (fun y => key y =? t) l.
Proof.
  induction l as [|x l IH]; simpl; [reflexivity|].
  rewrite insert_desc_filter, IH. destruct (key x =? t); reflexivity.
Qed.

Lemma created_at_entries (t : Z) (l : list file) :
  created_at t (map entry l) = map entry (filter (fun f => st_mtime f =? t) l).
Proof.
  unfold created_at. induction l as [|f l IH]; simpl; [reflexivity|].
  destruct (st_mtime f =? t); simpl; rewrite IH; reflexivity.
Qed.

(** X15. The sort of the listing is stable: recordings with the same modification
    time are listed in the order the directory gives them. *)
Theorem listing_keeps_order_of_equal_times (d : directory) (t : Z) :
  created_at t (recordings (fst (list_recordings d)))
  = created_at t (map entry (glob_pcm d)).
Proof.
  rewrite list_recordings_entries, !created_at_entries, sorted_reverse_filter.
  reflexivity.
Qed.

(* ===================================================================== *)
(** ** The log *)
(* ===================================================================== *)

Lemma prefix_spec (needle hay : string) :
  String.prefix needle hay = true <-> exists q, hay = (needle ++ q)%string.
Proof.
  revert hay. induction needle as [|c needle IH]; intros hay.
  - split; [intros _; exists hay; reflexivity|].
    intros _. destruct hay; reflexivity.
  - destruct hay as [|c' hay]; cbn [String.prefix String.append].
    + split; [discriminate | intros [q Hq]; discriminate].
    + destruct (Ascii.ascii_dec c c') as [E|E].
      * subst c'. rewrite IH. split.
        -- intros [q ->]. exists q. reflexivity.
        -- intros [q Hq]. injection Hq as ->. exists q. reflexivity.
      * split; [discriminate|]. intros [q Hq]. injection Hq as Hc _. congruence.
Qed.

Lemma contains_spec (needle hay : string) :
  PyStr.contains needle hay = true
  <-> exists p q, hay = (p ++ needle ++ q)%string.
Proof.
  induction hay as [|c hay IH].
  - cbn [PyStr.contains]. destruct (String.prefix needle "") eqn:E.
    + split; [intros _|reflexivity]. apply prefix_spec in E. destruct E as [q Hq].
      exists EmptyString, q. exact Hq.
    + split; [discriminate|]. intros [p [q H]].
      destruct p as [|c p]; [|discriminate]. simpl in H.
      assert (String.prefix needle "" = true) by (apply prefix_spec; exists q; exact H).
      congruence.
  - cbn [PyStr.contains]. destruct (String.prefix needle (String c hay)) eqn:E.
    + split; [intros _|reflexivity]. apply prefix_spec in E. destruct E as [q Hq].
      exists EmptyString, q. exact Hq.
    + rewrite IH. split.
      * intros [p [q ->]]. exists (String c p), q. reflexivity.
      * intros [p [q H]]. destruct p as [|c' p].
        -- simpl in H.
           assert (String.prefix needle (String c hay) = true)
             by (apply prefix_spec; exists q; exact H).
           congruence.
        -- simpl in H. injection H as _ ->. exists p, q. reflexivity.
Qed.

(** What [read_body] logs. *)
Lemma read_body_log (r : request) :
  match read_body_from (req_stream r) (content_length r) [] with
  | Finished a =>
      fst (read_body r) = inl a
      /\ snd (read_body r)
         = match length_declared (content_length r) with
           | Some _ => []
           | None => if max_size <=? len a then [Warning_exceeds_limit] else []
           end
  | Raised m p =>
      snd (read_body r) = [Error_reading_stream m; Info_trying_fallback]
      \/ exists m', snd (read_body r)
                    = [Error_reading_stream m; Info_trying_fallback;
                       Error_fallback_failed m']
  end.
Proof.
  unfold read_body.
  destruct (read_body_from (req_stream r) (content_length r) []) as [a|m p].
  - split; reflexivity.
  - destruct (wsgi_input r) as [w|]; [|now left].
    destruct (read_body_from w (content_length r) p) as [a'|m' p'];
      [now left | right; exists m'; reflexivity].
Qed.

(** The log of a request: the records of lines 61-70, those of the read,
    and those that follow the read. *)
Lemma receive_audio_log (r : request) (c : clock) (d : directory) :
  exists after,
    logged (receive_audio r c d)
    = content_type_warning (content_type_header r)
      ++ Info_received (sample_rate_of r) (bits_of r) (channels_of r)
           (get (content_type_header r) "") (content_length r)
         :: snd (read_body r) ++ after
    /\ (after = []
        \/ after = [Warning_no_audio_data]
        \/ (exists n k, after = [Info_saved n k; Info_response n k])
        \/ (exists n k m, after = [Info_saved n k; Error_processing m])).
Proof.
  destruct (read_body r) as [x log1] eqn:Hread.
  rewrite (receive_audio_after_read r c d _ _ Hread). cbn [snd].
  destruct x as [[|b t]|rp]; cbv zeta.
  - exists [Warning_no_audio_data]. unfold logged; cbn [snd].
    rewrite <- app_assoc. split; [reflexivity | right; now left].
  - destruct (duration _ _ _ _) as [e|x]; unfold logged; cbn [snd].
    + exists [Info_saved (recording_name c) (len (b :: t)); Error_processing (str_exn e)].
      rewrite <- !app_assoc. cbn [app]. split; [reflexivity|].
      right; right; right. eexists _, _, _. reflexivity.
    + exists [Info_saved (recording_name c) (len (b :: t));
              Info_response (recording_name c) (len (b :: t))].
      rewrite <- !app_assoc. cbn [app]. split; [reflexivity|].
      right; right; left. eexists _, _. reflexivity.
  - exists []. unfold logged; cbn [snd]. rewrite <- app_assoc, app_nil_r.
    split; [reflexivity | now left].
Qed.

(** X10. The content-type warning is logged exactly when the lower-cased
    Content-Type (the empty string when the header is missing) does not
    contain "audio/pcm". *)
Theorem content_type_warning_iff (r : request) (c : clock) (d : directory) :
  (exists ct, In (Warning_unexpected_content_type ct) (logged (receive_audio r c d)))
  <-> ~ (exists p q,
           PyStr.lower (get (content_type_header r) "")
           = (p ++ "audio/pcm" ++ q)%string).
Proof.
  rewrite <- contains_spec.
  destruct (receive_audio_log r c d) as [after [-> Hafter]].
  unfold content_type_warning.
  pose proof (read_body_log r) as Hlog.
  destruct (PyStr.contains "audio/pcm" (PyStr.lower (get (content_type_header r) "")));
    split.
  - intros [ct Hin] _. cbn [app] in Hin. destruct Hin as [Hin|Hin]; [discriminate|].
    apply in_app_or in Hin. destruct Hin as [Hin|Hin].
    + destruct (read_body_from (req_stream r) (content_length r) []) as [a|m p].
      * destruct Hlog as [_ Hl]. rewrite Hl in Hin.
        destruct (length_declared (content_length r)); [contradiction|].
        destruct (max_size <=? len a); [|contradiction].
        destruct Hin as [Hin|[]]; discriminate.
      * destruct Hlog as [Hl|[m' Hl]]; rewrite Hl in Hin; simpl in Hin;
          intuition discriminate.
    + destruct Hafter as [->|[->|[[n [k ->]]|[n [k [m ->]]]]]]; simpl in Hin;
        intuition discriminate.
  - intros H. exfalso. apply H. reflexivity.
  - intros _. discriminate.
  - intros _. eexists. cbn [app]. left. reflexivity.
Qed.

(** X9. The warning about the 10 MB limit is logged only when no length was
    declared and at least [max_size] bytes were read; despite its wording
    nothing is cut: all the bytes read, fewer than [max_size + chunk_size],
    are written. *)
Theorem exceeds_limit_warning_drops_nothing (r : request) (c : clock) (d : directory) :
  In Warning_exceeds_limit (logged (receive_audio r c d)) ->
  exists audio_data,
    fst (read_body r) = inl audio_data
    /\ length_declared (content_length r) = None
    /\ max_size <= len audio_data < max_size + chunk_size
    /\ stored (receive_audio r c d)
       = write_file (recording_name c) audio_data (now_mtime c) d.
Proof.
  intros Hin.
  destruct (receive_audio_log r c d) as [after [Hlog Hafter]].
  rewrite Hlog in Hin. clear Hlog.
  assert (Hin1 : In Warning_exceeds_limit (snd (read_body r))).
  { apply in_app_or in Hin. destruct Hin as [Hin|Hin].
    - unfold content_type_warning in Hin.
      destruct (PyStr.contains _ _); simpl in Hin; intuition discriminate.
    - destruct Hin as [Hin|Hin]; [discriminate|].
      apply in_app_or in Hin. destruct Hin as [Hin|Hin]; [exact Hin|].
      destruct Hafter as [->|[->|[[n [k ->]]|[n [k [m ->]]]]]]; simpl in Hin;
        intuition discriminate. }
  pose proof (read_body_log r) as Hl.
  destruct (read_body_from (req_stream r) (content_length r) []) as [a|m p].
  - destruct Hl as [Hfst Hsnd]. rewrite Hsnd in Hin1.
    destruct (length_declared (content_length r)) as [n|] eqn:Hdecl; [contradiction|].
    destruct (max_size <=? len a) eqn:Hmax; [|contradiction].
    apply Z.leb_le in Hmax.
    exists a. split; [exact Hfst|]. split; [reflexivity|].
    destruct (read_body r) as [x log1] eqn:Hread. cbn [fst] in Hfst. subst x.
    split.
    + split; [exact Hmax|]. apply (read_body_length r a log1 Hdecl Hread).
    + rewrite (receive_audio_after_read r c d _ _ Hread).
      destruct a as [|b t].
      * exfalso. pose proof max_size_pos. unfold len in Hmax. simpl in Hmax. lia.
      * cbv zeta. destruct (duration _ _ _ _); reflexivity.
  - exfalso. destruct Hl as [Hl|[m' Hl]]; rewrite Hl in Hin1; simpl in Hin1;
      intuition discriminate.
Qed.

(** A stream that always has a byte to give is read up to the limit. *)
Lemma never_empty_reaches_limit (r : request) (c : clock) (d : directory) :
  length_declared (content_length r) = None ->
  (forall k, exists x b, req_stream r k = Bytes (x :: b)) ->
  In Warning_exceeds_limit (logged (receive_audio r c d)).
Proof.
  intros Hdecl Hs.
  destruct (receive_audio_log r c d) as [after [-> _]].
  apply in_or_app. right. right. apply in_or_app. left.
  pose proof (read_body_log r) as Hl.
  rewrite read_body_from_undeclared in Hl by exact Hdecl.
  pose proof (read_chunks_run (req_stream r) []) as Hrun.
  assert (Hs' : forall k, exists b, req_stream r k = Bytes b).
  { intros k. destruct (Hs k) as [x [b H]]. eexists; exact H. }
  destruct (loop_run_chunks _ _ _ _ Hrun Hs') as [n [He [_ Hend]]].
  rewrite He in Hl. destruct Hl as [_ ->]. rewrite Hdecl.
  destruct Hend as [H|[_ H]].
  - apply Z.leb_le in H. rewrite H. now left.
  - exfalso. unfold chunk, read in H.
    destruct (Hs (0 + n)%nat) as [x [b Hb]]. rewrite Hb in H.
    destruct (Z.to_nat chunk_size) as [|m] eqn:E.
    + unfold chunk_size in E. lia.
    + discriminate.
Qed.

Lemma exceeds_limit_warning_drops_nothing_witness :
  exists audio_data,
    fst (read_body request_endless) = inl audio_data
    /\ length_declared (content_length request_endless) = None
    /\ max_size <= len audio_data < max_size + chunk_size
    /\ stored (receive_audio request_endless sample_clock [])
       = write_file (recording_name sample_clock) audio_data
           (now_mtime sample_clock) [].
Proof.
  apply (exceeds_limit_warning_drops_nothing request_endless sample_clock []).
  apply never_empty_reaches_limit; [reflexivity|].
  intros k. exists x00, []. reflexivity.
Defined.

(* ===================================================================== *)
(** ** Properties of [handle_raw_audio] *)
(* ===================================================================== *)

Section BeforeRequestFacts.
Context {V : Type}.
Implicit Types (e : @environ V) (k : string).

Lemma environ_get_del_same k e : environ_get k (environ_del k e) = None.
Proof.
  unfold environ_get, environ_del. induction e as [|[k' v] e IH]; simpl; [reflexivity|].
  destruct (String.eqb k' k) eqn:E; simpl; [exact IH|].
  rewrite E. exact IH.
Qed.

Lemma environ_get_del_other k k' e :
  k' <> k -> environ_get k' (environ_del k e) = environ_get k' e.
Proof.
  intros Hne. unfold environ_get, environ_del.
  induction e as [|[k0 v] e IH]; simpl; [reflexivity|].
  destruct (String.eqb k0 k) eqn:E; simpl.
  - apply String.eqb_eq in E. subst k0.
    destruct (String.eqb k k') eqn:E'; [apply String.eqb_eq in E'; congruence|].
    exact IH.
  - destruct (String.eqb k0 k'); [reflexivity | exact IH].
Qed.

Lemma environ_del_absent k e : environ_mem k e = false -> environ_del k e = e.
Proof.
  unfold environ_mem, environ_get, environ_del.
  induction e as [|[k0 v] e IH]; simpl; [reflexivity|].
  destruct (String.eqb k0 k) eqn:E; simpl; [discriminate|].
  intros H. rewrite (IH H). reflexivity.
Qed.

(** X16. The hook never raises.  For a POST to [receive_audio] it leaves an
    environment without HTTP_TRANSFER_ENCODING, otherwise the environment it
    was given; every other key keeps its value, the second deletion is never
    reached, and running the hook again changes nothing. *)
Theorem transfer_encoding_is_dropped
        (headers_pop : @environ V -> option (@environ V))
        (endpoint : option string) (method : string) e :
  exists e',
    handle_raw_audio headers_pop endpoint method e = Some e'
    /\ (forall k, k <> "HTTP_TRANSFER_ENCODING"%string ->
                  environ_get k e' = environ_get k e)
    /\ (endpoint = Some "receive_audio"%string -> method = "POST"%string ->
        environ_get "HTTP_TRANSFER_ENCODING" e' = None)
    /\ (endpoint <> Some "receive_audio"%string \/ method <> "POST"%string ->
        e' = e)
    /\ handle_raw_audio headers_pop endpoint method e' = Some e'.
Proof.
  unfold handle_raw_audio, header_mem_transfer_encoding.
  set (te := "HTTP_TRANSFER_ENCODING"%string).
  set (guard := match endpoint with
                | Some ep => String.eqb ep "receive_audio"
                | None => false
                end && String.eqb method "POST").
  assert (Hguard : guard = true <->
                   endpoint = Some "receive_audio"%string /\ method = "POST"%string).
  { unfold guard. destruct endpoint as [ep|]; simpl.
    - rewrite andb_true_iff, !String.eqb_eq. split.
      + intros [-> ->]. split; reflexivity.
      + intros [H ->]. injection H as ->. split; reflexivity.
    - split; [discriminate | intros [H _]; discriminate]. }
  destruct guard eqn:G.
  - set (e1 := if environ_mem te e then environ_del te e else e).
    assert (Hmem : environ_mem te e1 = false).
    { unfold e1. destruct (environ_mem te e) eqn:M; [|exact M].
      unfold environ_mem. rewrite environ_get_del_same. reflexivity. }
    rewrite Hmem. exists e1. split; [reflexivity|]. split; [|split; [|split]].
    + intros k Hk. unfold e1. destruct (environ_mem te e); [|reflexivity].
      now apply environ_get_del_other.
    + intros _ _. unfold environ_mem in Hmem.
      destruct (environ_get te e1); [discriminate | reflexivity].
    + intros [H|H]; exfalso; destruct (proj1 Hguard eq_refl) as [H1 H2]; contradiction.
    + rewrite Hmem. cbv iota. rewrite Hmem. reflexivity.
  - exists e. split; [reflexivity|]. split; [reflexivity|]. split; [|split].
    + intros H1 H2. assert (false = true) by (apply Hguard; now split). discriminate.
    + reflexivity.
    + reflexivity.
Qed.
End BeforeRequestFacts.

(* ===================================================================== *)
(** ** Two uploads within one second *)
(* ===================================================================== *)

Lemma reply_ignores_directory (r : request) (c : clock) (d d' : directory) :
  reply (receive_audio r c d) = reply (receive_audio r c d').
Proof.
  destruct (read_body r) as [x log1] eqn:Hread.
  rewrite !(receive_audio_after_read r c _ _ _ Hread).
  destruct x as [[|b t]|rp]; cbv zeta; try reflexivity.
  destruct (duration _ _ _ _); reflexivity.
Qed.

(** X4. A second upload stored within the same second replaces the first: the
    directory does not grow, the file of that name holds the second body
    only, the other names are as before the first upload, and the reply is
    the one an empty directory would give. *)
Theorem same_second_upload_overwrites (r1 r2 : request) (c1 c2 : clock) (d : directory) :
  now c1 = now c2 ->
  http_code (reply (receive_audio r1 c1 d)) <> 400 ->
  http_code (reply (receive_audio r2 c2 (stored (receive_audio r1 c1 d)))) <> 400 ->
  List.length (stored (receive_audio r2 c2 (stored (receive_audio r1 c1 d))))
  = List.length (stored (receive_audio r1 c1 d))
  /\ reply (receive_audio r2 c2 (stored (receive_audio r1 c1 d)))
     = reply (receive_audio r2 c2 [])
  /\ exists body2,
      fst (read_body r2) = inl body2
      /\ find_file (recording_name c1)
           (stored (receive_audio r2 c2 (stored (receive_audio r1 c1 d))))
         = Some (recording_file c2 body2)
      /\ forall n, n <> recording_name c1 ->
                   find_file n (stored (receive_audio r2 c2
                                          (stored (receive_audio r1 c1 d))))
                   = find_file n d.
Proof.
  intros Hnow H1 H2.
  set (d1 := stored (receive_audio r1 c1 d)) in *.
  set (d2 := stored (receive_audio r2 c2 d1)).
  assert (Hname : recording_name c2 = recording_name c1)
    by (unfold recording_name; rewrite Hnow; reflexivity).
  destruct (receive_audio_stored r1 c1 d) as [[E _]|[a1 [_ [_ [_ Hd1]]]]];
    [contradiction|].
  destruct (receive_audio_stored r2 c2 d1) as [[E _]|[a2 [_ [Hr2 [_ Hd2]]]]];
    [contradiction|].
  fold d1 in Hd1. fold d2 in Hd2.
  split; [|split].
  - rewrite Hd2, write_file_length, Hname.
    assert (Hex : exists_file (recording_name c1) d1 = true).
    { apply exists_file_In. rewrite Hd1, write_file_names.
      destruct (exists_file (recording_name c1) d) eqn:E.
      - now apply exists_file_In.
      - apply in_or_app. right. now left. }
    rewrite Hex. reflexivity.
  - apply reply_ignores_directory.
  - exists a2. split; [exact Hr2|]. split.
    + rewrite Hd2, <- Hname. apply write_file_find.
    + intros n Hn. rewrite Hd2, Hd1, Hname.
      rewrite !write_file_find_other by exact Hn. reflexivity.
Qed.

Lemma same_second_upload_overwrites_witness :
  List.length (stored (receive_audio request_12_bits later_clock
                         (stored (receive_audio request_16_bits sample_clock []))))
  = List.length (stored (receive_audio request_16_bits sample_clock []))
  /\ reply (receive_audio request_12_bits later_clock
              (stored (receive_audio request_16_bits sample_clock [])))
     = reply (receive_audio request_12_bits later_clock [])
  /\ exists body2,
      fst (read_body request_12_bits) = inl body2
      /\ find_file (recording_name sample_clock)
           (stored (receive_audio request_12_bits later_clock
                      (stored (receive_audio request_16_bits sample_clock []))))
         = Some (recording_file later_clock body2)
      /\ forall n, n <> recording_name sample_clock ->
                   find_file n (stored (receive_audio request_12_bits later_clock
                                          (stored (receive_audio request_16_bits
                                                     sample_clock []))))
                   = find_file n [].
Proof.
  apply (same_second_upload_overwrites request_16_bits request_12_bits
           sample_clock later_clock []).
  - reflexivity.
  - vm_compute; discriminate.
  - vm_compute; discriminate.
Defined.

(* ===================================================================== *)
(** ** The sign of the duration, and which uploads are accepted *)
(* ===================================================================== *)

Section FloatSigns.
Import PyFloat.
Local Open Scope Q_scope.


Lemma rne_nonpos (q : Q) : q <= 0 -> (rne q <= 0)%Z.
Proof.
  intros Hq. unfold rne.
  assert (Hf : (Qfloor q <= 0)%Z).
  { change 0%Z with (Qfloor 0). now apply Qfloor_resp_le. }
  destruct (Z.eq_dec (Qfloor q) 0) as [E|E].
  - rewrite E. change (inject_Z 0) with 0.
    destruct (Qcompare (q - 0) (1 # 2)) eqn:C.
    + apply Qeq_alt in C. lra.
    + lia.
    + apply Qgt_alt in C. lra.
  - destruct (Qcompare _ _); [destruct (Z.even _)| |]; lia.
Qed.

Lemma Qopp_opp (q : Q) : - - q = q.
Proof. destruct q as [n d]. unfold Qopp. cbn [Qnum Qden]. now rewrite Z.opp_involutive. Qed.

(** Rounding to a double commutes with the change of sign. *)
Lemma of_Q_opp (q : Q) : of_Q (- q) = option_map Qopp (of_Q q).
Proof.
  unfold of_Q. rewrite Qred_opp.
  set (q' := Qred q).
  assert (Hz : Qeq_bool (- q') 0 = Qeq_bool q' 0).
  { destruct q' as [n d]. unfold Qeq_bool, Qopp. cbn [Qnum Qden].
    destruct n; reflexivity. }
  rewrite Hz. destruct (Qeq_bool q' 0) eqn:Hq0; [reflexivity|].
  assert (Habs : Qabs (- q') = Qabs q').
  { destruct q' as [n d]. unfold Qabs, Qopp. cbn [Qnum Qden]. now rewrite Z.abs_opp. }
  rewrite Habs.
  destruct (Qle_bool (pow2 1024) _); [reflexivity|].
  cbn [option_map]. f_equal.
  assert (Hsign : Qle_bool 0 (- q') = negb (Qle_bool 0 q')).
  { apply Qeq_bool_neq in Hq0.
    destruct q' as [n d]. unfold Qle_bool, Qopp. cbn [Qnum Qden].
    destruct n as [|p|p]; try reflexivity.
    exfalso. apply Hq0. reflexivity. }
  rewrite Hsign. destruct (Qle_bool 0 q'); cbn [negb].
  - apply Qred_opp.
  - rewrite Qred_opp, Qopp_opp. reflexivity.
Qed.

Lemma of_Q_nonneg (q v : Q) : 0 <= q -> of_Q q = Some v -> 0 <= v.
Proof.
  intros Hq. unfold of_Q.
  assert (Hq' : 0 <= Qred q) by (rewrite Qred_correct; exact Hq).
  set (q' := Qred q) in *.
  destruct (Qeq_bool q' 0); [intros H; injection H as <-; apply Qle_refl|].
  match goal with
  | |- context [Qle_bool (pow2 1024) ?t] => remember t as w eqn:Hw
  end.
  destruct (Qle_bool (pow2 1024) w); [discriminate|].
  assert (Hs : Qle_bool 0 q' = true) by (apply Qle_bool_iff; exact Hq').
  rewrite Hs. intros H; injection H as <-.
  rewrite Qred_correct, Hw.
  apply Qmult_le_0_compat; [|apply Qlt_le_weak, pow2_pos].
  change 0 with (inject_Z 0). rewrite <- Zle_Qle. apply rne_nonneg.
  apply Qle_shift_div_l; [apply pow2_pos|]. rewrite Qmult_0_l. apply Qabs_nonneg.
Qed.

Lemma of_Q_nonpos (q v : Q) : q <= 0 -> of_Q q = Some v -> v <= 0.
Proof.
  intros Hq H.
  rewrite <- (Qopp_opp q), of_Q_opp in H.
  destruct (of_Q (- q)) as [w|] eqn:E; [|discriminate].
  injection H as <-.
  assert (Hw : 0 <= w).
  { apply (of_Q_nonneg (- q)); [|exact E].
    apply Qopp_le_compat in Hq. exact Hq. }
  apply Qopp_le_compat in Hw. exact Hw.
Qed.

End FloatSigns.





Lemma duration_sign (rate bits chans : string) (n sr b ch : Z) (x : PyFloat.float) :
  0 <= n ->
  PyStr.int rate = Some sr -> PyStr.int bits = Some b -> PyStr.int chans = Some ch ->
  duration rate bits chans n = inr x ->
  (0 < sr * (b / 8 * ch) -> (0 <= x)%Q) /\ (sr * (b / 8 * ch) < 0 -> (x <= 0)%Q).
Proof.
  intros Hn Hr Hb Hc. unfold duration. rewrite Hr, Hb, Hc.
  set (d := sr * (b / 8 * ch)). clearbody d.
  destruct (d =? 0); [discriminate|].
  unfold PyFloat.true_div, PyFloat.round2.
  destruct (PyFloat.of_Q (inject_Z n / inject_Z d)) as [v|] eqn:Hv; [|discriminate].
  destruct (PyFloat.of_Q (inject_Z (PyFloat.rne (v * 100)) / 100)) as [y|] eqn:Hy;
    [|discriminate].
  intros H; injection H as <-.
  assert (Hn' : (0 <= inject_Z n)%Q) by (rewrite <- (Zle_Qle 0); exact Hn).
  split; intros Hd.
  - assert (Hinv : (0 < / inject_Z d)%Q).
    { apply Qinv_lt_0_compat. rewrite <- (Zlt_Qlt 0). exact Hd. }
    assert (H0 : (0 <= v)%Q).
    { apply (of_Q_nonneg _ _ ltac:(apply Qmult_le_0_compat;
                                    [exact Hn' | apply Qlt_le_weak, Hinv]) Hv). }
    apply (of_Q_nonneg (inject_Z (PyFloat.rne (v * 100)) / 100)); [|exact Hy].
    apply Qle_shift_div_l; [reflexivity|]. rewrite Qmult_0_l.
    rewrite <- (Zle_Qle 0). apply rne_nonneg.
    apply Qmult_le_0_compat; [exact H0 | discriminate].
  - assert (Hq : (inject_Z n / inject_Z d <= 0)%Q).
    { clear Hv. destruct d as [|p|p]; try lia.
      unfold Qle, Qdiv, Qmult, Qinv, inject_Z. cbn [Qnum Qden]. lia. }
    assert (H0 : (v <= 0)%Q) by (apply (of_Q_nonpos _ _ Hq Hv)).
    apply (of_Q_nonpos (inject_Z (PyFloat.rne (v * 100)) / 100)); [|exact Hy].
    assert (Hm : (inject_Z (PyFloat.rne (v * 100)) <= 0)%Q).
    { rewrite <- (Zle_Qle _ 0). apply rne_nonpos. lra. }
    unfold Qdiv. 
    assert (Hc100 : (0 <= / 100)%Q) by discriminate.
    setoid_replace 0%Q with (0 * / 100)%Q by reflexivity.
    apply Qmult_le_compat_r; assumption.
Qed.



(** X12. The duration reported has the sign of
    [sample_rate * (bits // 8 * channels)]: it is never negative for
    positive parameters, and never positive when the product is negative. *)
Theorem duration_sign_follows_parameters (r : request) (c : clock) (d : directory)
        (b : success_body) (sr bits ch : Z) :
  json (reply (receive_audio r c d)) = Success b ->
  PyStr.int (sample_rate_of r) = Some sr ->
  PyStr.int (bits_of r) = Some bits ->
  PyStr.int (channels_of r) = Some ch ->
  (0 < sr * (bits / 8 * ch) -> (0 <= duration_seconds b)%Q)
  /\ (sr * (bits / 8 * ch) < 0 -> (duration_seconds b <= 0)%Q).
Proof.
  intros Hb Hsr Hbits Hch.
  destruct (receive_audio_success r c d b Hb)
    as [a [_ [_ [_ [_ [_ [_ [_ [_ Hd]]]]]]]]].
  apply (duration_sign (sample_rate_of r) (bits_of r) (channels_of r) (len a));
    try assumption.
  apply len_nonneg.
Qed.

Lemma duration_sign_follows_parameters_witness :
  (0 < -2 * (16 / 8 * 1) -> (0 <= - (1))%Q)
  /\ (-2 * (16 / 8 * 1) < 0 -> (- (1) <= 0)%Q).
Proof.
  apply (duration_sign_follows_parameters request_negative_rate sample_clock []
           (success_of "-2" "16" 4 (- (1))%Q) (-2) 16 1);
    vm_compute; reflexivity.
Defined.

(** X8. When the primary read does not raise, the fallback is not entered and
    [wsgi.input] is not looked at: the outcome is the same whatever it is. *)
Theorem fallback_unused_when_read_succeeds (r : request) (c : clock) (d : directory)
        (audio_data : bytes) :
  read_body_from (req_stream r) (content_length r) [] = Finished audio_data ->
  fallback_attempts (logged (receive_audio r c d)) = O
  /\ fst (read_body r) = inl audio_data
  /\ forall w, receive_audio (with_wsgi_input r w) c d = receive_audio r c d.
Proof.
  intros Hprimary.
  assert (Hrb : forall w, read_body (with_wsgi_input r w) = read_body r).
  { intros w. unfold read_body.
    change (req_stream (with_wsgi_input r w)) with (req_stream r).
    change (content_length (with_wsgi_input r w)) with (content_length r).
    rewrite Hprimary. reflexivity. }
  split; [|split].
  - destruct (receive_audio_log r c d) as [after [-> Hafter]].
    pose proof (read_body_log r) as Hl. rewrite Hprimary in Hl.
    destruct Hl as [_ ->].
    unfold content_type_warning.
    destruct (PyStr.contains _ _);
      destruct Hafter as [->|[->|[[n [k ->]]|[n [k [m ->]]]]]];
      destruct (length_declared (content_length r));
      try destruct (max_size <=? len audio_data); reflexivity.
  - unfold read_body. rewrite Hprimary. reflexivity.
  - intros w. unfold receive_audio. rewrite Hrb. reflexivity.
Qed.

Lemma fallback_unused_when_read_succeeds_witness :
  fallback_attempts (logged (receive_audio request_16_bits sample_clock [])) = O
  /\ fst (read_body request_16_bits) = inl [x01; x02; x03; x04]
  /\ forall w, receive_audio (with_wsgi_input request_16_bits w) sample_clock []
               = receive_audio request_16_bits sample_clock [].
Proof.
  apply (fallback_unused_when_read_succeeds request_16_bits sample_clock []).
  vm_compute; reflexivity.
Defined.

Lemma same_name_iff_same_second_witness :
  recording_name sample_clock = recording_name later_clock
  <-> now sample_clock = now later_clock.
Proof.
  apply (same_name_iff_same_second sample_clock later_clock);
    unfold valid_datetime; cbn; lia.
Defined.

Lemma content_length_zero_is_undeclared_witness :
  reply (receive_audio (with_content_length request_streamed (Some 0)) sample_clock [])
  = reply (receive_audio (with_content_length request_streamed None) sample_clock [])
  /\ stored (receive_audio (with_content_length request_streamed (Some 0))
               sample_clock [])
     = stored (receive_audio (with_content_length request_streamed None)
                 sample_clock [])
  /\ read_body_from (req_stream request_streamed) (Some 0) []
     = read_chunks (req_stream request_streamed) [].
Proof.
  apply (content_length_zero_is_undeclared request_streamed sample_clock [] 0). lia.
Defined.

Lemma declared_length_bounds_body_witness :
  (forall audio_data,
      fst (read_body request_16_bits) = inl audio_data -> len audio_data <= 4)
  /\ (forall b, json (reply (receive_audio request_16_bits sample_clock [])) = Success b ->
                size_bytes b <= 4)
  /\ (forall f, In f (stored (receive_audio request_16_bits sample_clock [])) ->
                In f [] \/ len (data f) <= 4).
Proof.
  apply (declared_length_bounds_body request_16_bits sample_clock [] 4).
  vm_compute; reflexivity.
Defined.

Lemma partial_body_survives_failure_witness :
  (length_declared (content_length request_interrupted) <> None -> three_bytes = [])
  /\ len three_bytes < max_size
  /\ (wsgi_input request_interrupted = None ->
      fst (read_body request_interrupted) = inl three_bytes)
  /\ (forall audio_data,
         fst (read_body request_interrupted) = inl audio_data ->
         exists rest, audio_data = (three_bytes ++ rest)%list).
Proof.
  apply (partial_body_survives_failure request_interrupted "reset" three_bytes).
  vm_compute; reflexivity.
Defined.

Lemma accepted_upload_is_listed_witness :
  In {| rec_filename := recording_name sample_clock;
        rec_size_bytes := 4;
        rec_created := now_mtime sample_clock |}
     (recordings (fst (list_recordings
                         (stored (receive_audio request_16_bits sample_clock [])))))
  /\ ((forall f, In f [] -> st_mtime f < now_mtime sample_clock) ->
      hd_error (recordings (fst (list_recordings
                                   (stored (receive_audio request_16_bits
                                              sample_clock [])))))
      = Some {| rec_filename := recording_name sample_clock;
                rec_size_bytes := 4;
                rec_created := now_mtime sample_clock |}).
Proof.
  apply (accepted_upload_is_listed request_16_bits sample_clock []
           (success_of "2" "16" 4 1%Q)).
  vm_compute; reflexivity.
Defined.

(* ===================================================================== *)
(** ** Audio parameters that are not positive integers *)
(* ===================================================================== *)




(** The texts of the two [ValueError]: [repr] of the header between the
    quotes Python chooses, and the count of the digits. *)
Example invalid_literal_texts :
  str_exn (int_exn "abc") = "invalid literal for int() with base 10: 'abc'"%string
  /\ str_exn (int_exn "a'b")
     = ("invalid literal for int() with base 10: "
        ++ String PyStr.double_quote ("a'b" ++ String PyStr.double_quote ""))%string
  /\ str_exn (int_exn (String PyStr.backslash "n"))
     = ("invalid literal for int() with base 10: '"
        ++ String PyStr.backslash (String PyStr.backslash "n'"))%string.
Proof. vm_compute. repeat split. Qed.

(** [int] refuses a literal of more than 4300 digits, with the [ValueError]
    of the limit; what it accepts is a literal within the limit. *)
Lemma int_digit_limit (s : string) :
  PyStr.max_str_digits < PyStr.digit_count s ->
  PyStr.int s = None
  /\ (PyStr.int_literal s <> None -> int_exn s = ValueError_digits s).
Proof.
  intros H. apply Z.ltb_lt in H. unfold PyStr.int, int_exn.
  destruct (PyStr.int_literal s) as [z|].
  - rewrite H. split; [reflexivity | intros _; reflexivity].
  - split; [reflexivity | intros C; contradiction].
Qed.

Lemma int_within_limit (s : string) (z : Z) :
  PyStr.int s = Some z ->
  PyStr.int_literal s = Some z /\ PyStr.digit_count s <= PyStr.max_str_digits.
Proof.
  unfold PyStr.int. destruct (PyStr.int_literal s) as [z'|]; [|discriminate].
  destruct (PyStr.max_str_digits <? PyStr.digit_count s) eqn:E; [discriminate|].
  intros H; injection H as ->. apply Z.ltb_ge in E. split; [reflexivity | exact E].
Qed.

(* ===================================================================== *)
(** ** The body-reading policy, as the handler applies it *)
(* ===================================================================== *)





(* ===================================================================== *)
(** ** The listing on a directory with entries that cannot be stat'ed *)
(* ===================================================================== *)



(** On a directory of files the general listing is [list_recordings]. *)
Lemma list_recordings_in_files (d : directory) :
  list_recordings_in (map Readable d) = (Some (fst (list_recordings d)), 200).
Proof.
  assert (Hg : glob_pcm_entries (map Readable d) = map Readable (glob_pcm d)).
  { unfold glob_pcm_entries, glob_pcm. induction d as [|f d IH]; simpl; [reflexivity|].
    destruct (PyStr.endswith ".pcm" (name f)); simpl; rewrite IH; reflexivity. }
  assert (Hst : forall l, stat_all (map Readable l) = Some l).
  { induction l as [|f l IH]; simpl; [reflexivity | rewrite IH; reflexivity]. }
  unfold list_recordings_in. rewrite Hg, Hst. reflexivity.
Qed.



